(** * Brand colour palettes: [backend/services/colors.py]

    A shallow embedding of the colour helpers of the palette service
    ([rgb_to_hex], [hex_to_rgb], [calculate_luminance], [is_neutral],
    [classify_colors], [merge_palettes]) together with the facts the
    specification states about them.

    Conventions of the embedding.
    - A Python [int] is a [Z]; an RGB sample is a triple of [Z].
    - A Python [str] is a [string]; its characters stand for the code points
      U+0000 .. U+00FF.
    - A Python [float] is a primitive binary64 [float].
    - A call that may raise returns a [result]. *)

From Stdlib Require Import ZArith List String Ascii Bool Lia.
From Stdlib Require Import HexString Permutation Sorted.
From Stdlib Require Import Floats.
Import ListNotations.

Local Open Scope string_scope.
Local Open Scope Z_scope.

#[local] Set Warnings "-inexact-float".

(** ** Exceptions *)

Inductive exn : Type :=
| ValueError.

Inductive result (A : Type) : Type :=
| Ok (a : A)
| Raise (e : exn).

Arguments Ok {A} a.
Arguments Raise {A} e.

Definition bind {A B : Type} (r : result A) (k : A -> result B) : result B :=
  match r with
  | Ok a => k a
  | Raise e => Raise e
  end.

Notation "x <- r ;; k" := (bind r (fun x => k))
  (at level 61, r at next level, right associativity).

(** ** The string primitives the module relies on *)

Module PyStr.

Definition code (c : ascii) : Z := Z.of_nat (nat_of_ascii c).

(** [s.lstrip("#")]: every leading ['#'] goes, not only the first. *)
Fixpoint lstrip_hash (s : string) : string :=
  match s with
  | String c s' => if Ascii.eqb c "#" then lstrip_hash s' else s
  | EmptyString => EmptyString
  end.

(** [s[i:i+2]]; a slice past the end is shorter, possibly empty. *)
Definition slice2 (i : nat) (s : string) : string := substring i 2 s.

(** [str.upper] on the ASCII letters, the only letters a formatted
    integer holds. *)
Definition upper_char (c : ascii) : ascii :=
  if (97 <=? code c) && (code c <=? 122)
  then ascii_of_nat (nat_of_ascii c - 32)
  else c.

Fixpoint upper (s : string) : string :=
  match s with
  | String c s' => String (upper_char c) (upper s')
  | EmptyString => EmptyString
  end.

(** Lowercase hexadecimal digits of a non-negative integer. *)
Definition hex_of_nonneg (n : Z) : string :=
  match n with
  | Zpos p => HexString.Raw.of_pos p ""
  | _ => "0"
  end.

Fixpoint zeros (k : nat) : string :=
  match k with
  | O => ""
  | S k' => String "0" (zeros k')
  end.

Definition zfill (width : nat) (s : string) : string :=
  zeros (width - String.length s) ++ s.

(** [format(n, "02x")]: the sign counts in the width, the zeros come
    after it. *)
Definition format_02x (n : Z) : string :=
  if n <? 0
  then String "-" (zfill 1 (hex_of_nonneg (- n)))
  else zfill 2 (hex_of_nonneg n).

(** *** [int(s, 16)] *)

(** The characters [int] skips around a literal: the ASCII blanks, and
    U+0085 and U+00A0, which the conversion first rewrites to a blank. *)
Definition is_space (c : ascii) : bool :=
  ((9 <=? code c) && (code c <=? 13))
  || (code c =? 32) || (code c =? 133) || (code c =? 160).

Definition digit_value (c : ascii) : option Z :=
  let n := code c in
  if (48 <=? n) && (n <=? 57) then Some (n - 48)
  else if (97 <=? n) && (n <=? 102) then Some (n - 87)
  else if (65 <=? n) && (n <=? 70) then Some (n - 55)
  else None.

Fixpoint skip_space (s : string) : string :=
  match s with
  | String c s' => if is_space c then skip_space s' else s
  | EmptyString => EmptyString
  end.

(** Digits with single underscores between them. [prev_us] says the
    previous character was an underscore; the result is the value, the
    number of digits read and what is left. *)
Fixpoint scan_digits (s : string) (prev_us : bool) (ndigits : nat) (acc : Z)
  : option (Z * nat * string) :=
  match s with
  | EmptyString => if prev_us then None else Some (acc, ndigits, s)
  | String c s' =>
      if Ascii.eqb c "_"
      then if prev_us then None else scan_digits s' true ndigits acc
      else match digit_value c with
           | Some d => scan_digits s' false (S ndigits) (16 * acc + d)
           | None => if prev_us then None else Some (acc, ndigits, s)
           end
  end.

Definition take_sign (s : string) : bool * string :=
  match s with
  | String "+" r => (false, r)
  | String "-" r => (true, r)
  | _ => (false, s)
  end.

(** An optional [0x] or [0X], after which one underscore may stand. *)
Definition skip_prefix (s : string) : string :=
  match s with
  | String "0" (String x r) =>
      if Ascii.eqb x "x" || Ascii.eqb x "X"
      then match r with
           | String "_" r' => r'
           | _ => r
           end
      else s
  | _ => s
  end.

Definition int16 (s : string) : result Z :=
  let '(neg, s) := take_sign (skip_space s) in
  let s := skip_prefix s in
  match s with
  | String "_" _ => Raise ValueError
  | _ =>
      match scan_digits s false 0 0 with
      | Some (v, S _, rest) =>
          match skip_space rest with
          | EmptyString => Ok (if neg then - v else v)
          | _ => Raise ValueError
          end
      | _ => Raise ValueError
      end
  end.

End PyStr.

(** ** RGB samples and the conversions *)

Definition rgb : Type := Z * Z * Z.

(** [f"#{rgb[0]:02x}{rgb[1]:02x}{rgb[2]:02x}".upper()] *)
Definition rgb_to_hex (c : rgb) : string :=
  let '(r, g, b) := c in
  PyStr.upper
    ("#" ++ PyStr.format_02x r ++ PyStr.format_02x g ++ PyStr.format_02x b).

(** [tuple(int(hex_color[i:i+2], 16) for i in (0, 2, 4))] after the
    [lstrip]. *)
Definition hex_to_rgb (hex_color : string) : result rgb :=
  let hex_color := PyStr.lstrip_hash hex_color in
  r <- PyStr.int16 (PyStr.slice2 0 hex_color) ;;
  g <- PyStr.int16 (PyStr.slice2 2 hex_color) ;;
  b <- PyStr.int16 (PyStr.slice2 4 hex_color) ;;
  Ok (r, g, b).

(** ** Luminance and neutrality *)

(** [float(n)] for an [int] [n]: the nearest binary64, ties to even. An
    [int] too large for a binary64 makes Python raise [OverflowError]; the
    channels of a sample are far from there. *)
Definition py_float (n : Z) : float :=
  SF2Prim (binary_normalize prec emax n 0 false).

(** [r, g, b = [x / 255.0 for x in rgb]] and the weighted sum, added from
    the left as Python does. *)
Definition calculate_luminance (c : rgb) : float :=
  let '(r, g, b) := c in
  let r := (py_float r / 255)%float in
  let g := (py_float g / 255)%float in
  let b := (py_float b / 255)%float in
  (0.2126 * r + 0.7152 * g + 0.0722 * b)%float.

Definition max3 (r g b : Z) : Z := Z.max (Z.max r g) b.
Definition min3 (r g b : Z) : Z := Z.min (Z.min r g) b.

Definition is_neutral (c : rgb) : bool :=
  let '(r, g, b) := c in
  let max_diff := max3 r g b - min3 r g b in
  max_diff <? 30.

(** The local function [saturation] of [classify_colors]. *)
Definition saturation (c : rgb) : Z :=
  let '(r, g, b) := c in
  let max_val := max3 r g b in
  let min_val := min3 r g b in
  max_val - min_val.

(** ** [list.sort(key=...)]

    Python's sort is stable and compares keys with [<] only. It is embedded
    as the stable insertion sort: an element goes in front of the first
    one whose key is not smaller than its own. With [reverse=True] every
    comparison is taken the other way round, which keeps equal keys in
    their original order. *)

Section PySort.
Context {A K : Type}.
Variable key : A -> K.
Variable lt : K -> K -> bool.

Fixpoint insert_by (x : A) (l : list A) : list A :=
  match l with
  | [] => [x]
  | y :: l' => if lt (key y) (key x) then y :: insert_by x l' else x :: l
  end.

Definition sort_by (l : list A) : list A := fold_right insert_by [] l.

(** [x] may stand before [y] in the sorted list: the key of [y] is not
    smaller. *)
Definition before (x y : A) : Prop := lt (key y) (key x) = false.
End PySort.

Definition py_sort {A K : Type} (key : A -> K) (lt : K -> K -> bool)
  (reverse : bool) (l : list A) : list A :=
  if reverse then sort_by key (fun a b => lt b a) l else sort_by key lt l.

(** ** Palettes *)

Record ColorPalette : Type := {
  primary : string;
  secondary : string;
  accent : string;
  neutrals : list string;
  all_colors : list string
}.

Definition fallback_palette : ColorPalette :=
  {| primary := "#000000";
     secondary := "#FFFFFF";
     accent := "#CCCCCC";
     neutrals := ["#F5F5F5"; "#333333"];
     all_colors := ["#000000"; "#FFFFFF"; "#CCCCCC"; "#F5F5F5"; "#333333"] |}.

(** The two lists [classify_colors] builds and sorts in place. *)
Definition vibrant_colors (colors_rgb : list rgb) : list rgb :=
  py_sort saturation Z.ltb true
    (filter (fun c => negb (is_neutral c)) colors_rgb).

Definition neutral_colors (colors_rgb : list rgb) : list rgb :=
  py_sort calculate_luminance PrimFloat.ltb false
    (filter is_neutral colors_rgb).

Definition classify_colors (colors_rgb : list rgb) : ColorPalette :=
  match colors_rgb with
  | [] => fallback_palette
  | first :: _ =>
      let vibrant := vibrant_colors colors_rgb in
      let neutral := neutral_colors colors_rgb in
      let primary_rgb :=
        match vibrant with
        | v :: _ => v
        | [] => first
        end in
      let secondary_rgb :=
        if (1 <? List.length vibrant)%nat then nth 1 vibrant primary_rgb
        else match neutral with
             | n :: _ => n
             | [] =>
                 if (1 <? List.length colors_rgb)%nat
                 then nth 1 colors_rgb primary_rgb
                 else primary_rgb
             end in
      let accent_rgb :=
        if (2 <? List.length vibrant)%nat then nth 2 vibrant primary_rgb
        else if (1 <? List.length vibrant)%nat then nth 1 vibrant primary_rgb
             else primary_rgb in
      {| primary := rgb_to_hex primary_rgb;
         secondary := rgb_to_hex secondary_rgb;
         accent := rgb_to_hex accent_rgb;
         neutrals := map rgb_to_hex (firstn 3 neutral);
         all_colors := map rgb_to_hex colors_rgb |}
  end.

(** ** [list(set(...))]

    A Python [set] of strings is iterated in an order fixed by the hashes
    of its members, which the interpreter seeds afresh in every process.
    The language promises only that each member comes once. [SetOrder]
    is one such iteration order; [merge_palettes] takes the one of the
    process it runs in. *)

Class SetOrder : Type := {
  list_set : list string -> list string;
  list_set_members :
    forall l, Permutation (list_set l) (nodup string_dec l)
}.

(** Two orders an interpreter may show: members as first met, and the
    same backwards. *)
#[refine] Instance first_seen : SetOrder :=
  {| list_set := fun l => nodup string_dec l |}.
Proof. intros l. apply Permutation_refl. Defined.

#[refine] Instance last_seen : SetOrder :=
  {| list_set := fun l => rev (nodup string_dec l) |}.
Proof. intros l. apply Permutation_sym, Permutation_rev. Defined.

Definition merge_palettes {order : SetOrder}
  (palette1 palette2 : ColorPalette) : ColorPalette :=
  let all := list_set (all_colors palette1 ++ all_colors palette2) in
  {| primary := primary palette1;
     secondary := primary palette2;
     accent := accent palette1;
     neutrals := firstn 4 (list_set (neutrals palette1 ++ neutrals palette2));
     all_colors := firstn 12 all |}.

(** ** What the specification says of a palette *)

Definition palette_invariant (p : ColorPalette) : Prop :=
  (all_colors p <> [] ->
   In (primary p) (all_colors p)
   /\ In (secondary p) (all_colors p)
   /\ In (accent p) (all_colors p))
  /\ incl (neutrals p) (all_colors p).

Definition valid_rgb (c : rgb) : Prop :=
  let '(r, g, b) := c in
  0 <= r <= 255 /\ 0 <= g <= 255 /\ 0 <= b <= 255.

Definition is_hex_digit (c : ascii) : bool :=
  match PyStr.digit_value c with
  | Some _ => true
  | None => false
  end.

Definition is_upper_hex_digit (c : ascii) : bool :=
  let n := PyStr.code c in
  ((48 <=? n) && (n <=? 57)) || ((65 <=? n) && (n <=? 70)).

Fixpoint all_chars (p : ascii -> bool) (s : string) : bool :=
  match s with
  | String c s' => p c && all_chars p s'
  | EmptyString => true
  end.

(** Exactly six hexadecimal digits. *)
Definition six_hex_digits (s : string) : bool :=
  (String.length s =? 6)%nat && all_chars is_hex_digit s.

(** One leading ['#'] removed when there is one. *)
Definition strip_one_hash (s : string) : string :=
  match s with
  | String c s' => if Ascii.eqb c "#" then s' else s
  | EmptyString => s
  end.

(** ['#'] and six uppercase hexadecimal digits. *)
Definition canonical_hex (s : string) : bool :=
  match s with
  | String c s' =>
      Ascii.eqb c "#"
      && (String.length s' =? 6)%nat && all_chars is_upper_hex_digit s'
  | EmptyString => false
  end.

(** The corresponding RGB triple of six hexadecimal digits, two digits a
    channel, most significant first. *)
Definition hex_pair_value (a b : ascii) : option Z :=
  match PyStr.digit_value a, PyStr.digit_value b with
  | Some x, Some y => Some (16 * x + y)
  | _, _ => None
  end.

Definition hex_triple (s : string) : option rgb :=
  match s with
  | String a1 (String a2 (String b1 (String b2 (String c1 (String c2 EmptyString))))) =>
      match hex_pair_value a1 a2, hex_pair_value b1 b2, hex_pair_value c1 c2 with
      | Some r, Some g, Some b => Some (r, g, b)
      | _, _, _ => None
      end
  | _ => None
  end.

(** ** Definitions used to state and check the claims *)

(** The values of a channel, and the characters of a string. *)
Definition bytes : list Z := map Z.of_nat (seq 0 256).

Definition all_ascii : list ascii := map ascii_of_nat (seq 0 256).

(** A channel as [rgb_to_hex] writes it. *)
Definition byte_hex (n : Z) : string := PyStr.upper (PyStr.format_02x n).

(** A channel of a valid sample is written as two uppercase digits that
    read back as the channel. *)
Definition byte_ok (n : Z) : bool :=
  match byte_hex n with
  | String a (String b EmptyString) =>
      is_upper_hex_digit a && is_upper_hex_digit b
      && match hex_pair_value a b with
         | Some v => v =? n
         | None => false
         end
  | _ => false
  end.

(** *** Binary64 numbers

    The comparison of two numbers is the lexicographic order of a rank:
    the class of the number, then exponent and mantissa. *)

Definition sf_rank (x : spec_float) : Z * Z * Z :=
  match x with
  | S754_nan => (0, 0, 0)
  | S754_infinity true => (-2, 0, 0)
  | S754_infinity false => (2, 0, 0)
  | S754_zero _ => (0, 0, 0)
  | S754_finite true m e => (-1, - e, - Zpos m)
  | S754_finite false m e => (1, e, Zpos m)
  end.

Definition rank_lt (p q : Z * Z * Z) : Prop :=
  let '(a1, a2, a3) := p in
  let '(b1, b2, b3) := q in
  a1 < b1 \/ (a1 = b1 /\ (a2 < b2 \/ (a2 = b2 /\ a3 < b3))).

Definition not_nan (x : float) : Prop := Prim2SF x <> S754_nan.

Definition sf_finite (x : spec_float) : bool :=
  match x with
  | S754_finite _ _ _ | S754_zero _ => true
  | _ => false
  end.

(** One term of the weighted sum. *)
Definition luminance_term (weight : float) (channel : Z) : float :=
  (weight * (py_float channel / 255))%float.

(** *** The rules for the roles *)

(** The assignment in the words of the specification, on the sorted
    vibrant samples, the sorted neutral samples and the input. *)
Definition rule_primary (vibrant cs : list rgb) : rgb :=
  match vibrant with
  | v :: _ => v
  | [] => hd (0, 0, 0) cs
  end.

Definition rule_secondary (vibrant neutral cs : list rgb) : rgb :=
  match vibrant with
  | _ :: v2 :: _ => v2
  | _ =>
      match neutral with
      | n :: _ => n
      | [] =>
          match cs with
          | _ :: c2 :: _ => c2
          | _ => rule_primary vibrant cs
          end
      end
  end.

Definition rule_accent (vibrant cs : list rgb) : rgb :=
  match vibrant with
  | _ :: _ :: v3 :: _ => v3
  | _ :: v2 :: _ => v2
  | _ => rule_primary vibrant cs
  end.

(** *** Sample palettes *)

(** The merge-precedence example of the specification. *)
Definition logo_example : ColorPalette :=
  {| primary := "#111111"; secondary := "#333333"; accent := "#222222";
     neutrals := []; all_colors := ["#111111"; "#333333"; "#222222"] |}.

Definition site_example : ColorPalette :=
  {| primary := "#AAAAAA"; secondary := "#BBBBBB"; accent := "#CCCCCC";
     neutrals := []; all_colors := ["#AAAAAA"; "#BBBBBB"; "#CCCCCC"] |}.

(** A palette with a primary colour and no colour list, as the schema
    allows ([all_colors] and [neutrals] default to the empty list), and
    the palette of a one-colour site. *)
Definition bare_logo : ColorPalette :=
  {| primary := "#111111"; secondary := "#111111"; accent := "#111111";
     neutrals := []; all_colors := [] |}.

Definition grey_site : ColorPalette := classify_colors [(170, 170, 170)].

(** Thirteen vivid samples, the most saturated one last, and its palette. *)
Definition thirteen_samples : list rgb :=
  map (fun k => (100 + 10 * k, 0, 0)) (map Z.of_nat (seq 0 13)).

Definition red_logo : ColorPalette := classify_colors [(255, 0, 0)].
Definition blue_site : ColorPalette := classify_colors [(0, 0, 255)].

(** Three vibrant samples of saturation 60, 90 and 40 among two neutral
    ones. *)
Definition mixed_samples : list rgb :=
  [(200, 200, 200); (160, 100, 100); (20, 20, 20); (190, 100, 100);
   (140, 100, 100)].

Ltac split_andb :=
  repeat match goal with
    | H : _ && _ = true |- _ => apply andb_prop in H as [? ?]
    end.

(** ** Further definitions: the strings of a palette *)

(** Every hex string a palette holds. *)
Definition palette_strings (p : ColorPalette) : list string :=
  primary p :: secondary p :: accent p :: neutrals p ++ all_colors p.

(** Every string of the palette is ['#'] and six uppercase digits. *)
Definition canonical_palette (p : ColorPalette) : Prop :=
  Forall (fun h => canonical_hex h = true) (palette_strings p).

(** The sixteen digits and the six lowercase letters. *)
Definition hex_chars : list ascii :=
  filter is_hex_digit all_ascii.

(** [k] times ['#']. *)
Fixpoint hashes (k : nat) : string :=
  match k with
  | O => EmptyString
  | S k' => String "#" (hashes k')
  end.

(** ** [routers/brand.py]: the colours of the brand

    The last step of [analyze_complete], on the two palettes extracted
    before ([None] when nothing was given or the extraction raised). A
    palette object is always true in a condition. *)

Definition default_brand_palette : ColorPalette :=
  {| primary := "#000000";
     secondary := "#FFFFFF";
     accent := "#4A90E2";
     neutrals := ["#F5F5F5"; "#333333"];
     all_colors := ["#000000"; "#FFFFFF"; "#4A90E2"; "#F5F5F5"; "#333333"] |}.

Definition brand_colors {order : SetOrder}
  (colors_from_logo colors_from_website : option ColorPalette)
  : ColorPalette :=
  match colors_from_logo, colors_from_website with
  | Some logo, Some website => merge_palettes logo website
  | Some logo, None => logo
  | None, Some website => website
  | None, None => default_brand_palette
  end.

(** ** More string primitives *)

Module PyStr2.




(** [s[:n]] *)
Definition take (n : nat) (s : string) : string := substring 0 n s.

(** [c.isspace()] below 256, the characters [str.split()] splits at. *)
Definition isspace (c : ascii) : bool :=
  let n := PyStr.code c in
  ((9 <=? n) && (n <=? 13)) || ((28 <=? n) && (n <=? 32))
  || (n =? 133) || (n =? 160).

(** [s.split()]: the maximal runs of characters that are no whitespace.
    [word] holds the run being read, last character first. *)
Fixpoint split_from (word : list ascii) (s : string) : list string :=
  match s with
  | EmptyString =>
      match word with
      | [] => []
      | _ => [string_of_list_ascii (rev word)]
      end
  | String c s' =>
      if isspace c
      then match word with
           | [] => split_from [] s'
           | _ => string_of_list_ascii (rev word) :: split_from [] s'
           end
      else split_from (c :: word) s'
  end.

Definition split (s : string) : list string := split_from [] s.

(** [sep.join(words)] *)
Fixpoint join (sep : string) (words : list string) : string :=
  match words with
  | [] => EmptyString
  | [w] => w
  | w :: ws => w ++ sep ++ join sep ws
  end.

End PyStr2.

(** ** [services/figma_export.py]: the name of the download *)






(** ** [routers/templates.py]: the templates and their two routes *)

#[local] Set Warnings "-register-all".

(** A JSON value, for the [structure] of a template. *)
Inductive json : Type :=
| JNull
| JBool (b : bool)
| JInt (n : Z)
| JStr (s : string)
| JList (items : list json)
| JDict (fields : list (string * json)).

Inductive TemplateType : Type :=
| POST
| CAROUSEL
| STORY.

Definition TemplateType_eqb (a b : TemplateType) : bool :=
  match a, b with
  | POST, POST | CAROUSEL, CAROUSEL | STORY, STORY => true
  | _, _ => false
  end.

(** An entry of [TEMPLATES_DB]. *)
Record TemplateRow : Type := {
  row_id : string;
  row_name : string;
  row_template_type : TemplateType;
  row_structure : json;
  row_preview_image : option string
}.

Definition TEMPLATES_DB : list TemplateRow :=
  [ {| row_id := "linkedin-post-classic";
       row_name := "Post LinkedIn Classique";
       row_template_type := POST;
       row_structure :=
         JDict [("sections", JList [JStr "hook"; JStr "body"; JStr "cta"; JStr "hashtags"]);
                ("max_length", JInt 1200);
                ("format", JStr "viral")];
       row_preview_image := None |};
    {| row_id := "linkedin-post-storytelling";
       row_name := "Post LinkedIn Storytelling";
       row_template_type := POST;
       row_structure :=
         JDict [("sections", JList [JStr "hook"; JStr "story"; JStr "lesson"; JStr "cta"]);
                ("max_length", JInt 1500);
                ("format", JStr "narrative")];
       row_preview_image := None |};
    {| row_id := "linkedin-carousel-5";
       row_name := "Carousel LinkedIn 5 slides";
       row_template_type := CAROUSEL;
       row_structure :=
         JDict [("num_slides", JInt 5);
                ("slide_sections", JList [JStr "title"; JStr "content"]);
                ("cover_required", JBool true)];
       row_preview_image := None |};
    {| row_id := "linkedin-carousel-7";
       row_name := "Carousel LinkedIn 7 slides";
       row_template_type := CAROUSEL;
       row_structure :=
         JDict [("num_slides", JInt 7);
                ("slide_sections", JList [JStr "title"; JStr "content"]);
                ("cover_required", JBool true)];
       row_preview_image := None |};
    {| row_id := "instagram-post-classic";
       row_name := "Post Instagram Classique";
       row_template_type := POST;
       row_structure :=
         JDict [("sections", JList [JStr "text"; JStr "hashtags"]);
                ("max_length", JInt 2200);
                ("format", JStr "casual")];
       row_preview_image := None |} ].

(** The response model [Template]. *)
Record Template : Type := {
  id : string;
  name : string;
  template_type : TemplateType;
  structure : json;
  preview_image : option string;
  created_at : string
}.

Definition to_template (t : TemplateRow) : Template :=
  {| id := row_id t;
     name := row_name t;
     template_type := row_template_type t;
     structure := row_structure t;
     preview_image := row_preview_image t;
     created_at := "2025-01-01T00:00:00Z" |}.

(** What a route gives: its response, or an [HTTPException]. *)
Inductive http_result (A : Type) : Type :=
| Response (a : A)
| HTTPException (status_code : Z) (detail : string).

Arguments Response {A} a.
Arguments HTTPException {A} status_code detail.

Section TemplateRoutes.
(** The table the routes read; the module has [TEMPLATES_DB]. *)
Variable db : list TemplateRow.

Definition list_templates_in (template_type : option TemplateType)
  : list Template :=
  let templates :=
    match template_type with
    | Some ty =>
        filter (fun t => TemplateType_eqb (row_template_type t) ty) db
    | None => db
    end in
  map to_template templates.

Definition get_template_in (template_id : string) : http_result Template :=
  match find (fun t => String.eqb (row_id t) template_id) db with
  | Some template => Response (to_template template)
  | None =>
      HTTPException 404 ("Template " ++ template_id ++ " not found")
  end.
End TemplateRoutes.

Definition list_templates : option TemplateType -> list Template :=
  list_templates_in TEMPLATES_DB.

Definition get_template : string -> http_result Template :=
  get_template_in TEMPLATES_DB.

(** ** [services/scraper.py]: colours in style attributes *)

(** [s] starts with [n] hexadecimal digits. *)
Fixpoint hex_prefix (n : nat) (s : string) : bool :=
  match n, s with
  | O, _ => true
  | S n', String c s' => is_hex_digit c && hex_prefix n' s'
  | S _, EmptyString => false
  end.

(** [re.findall(r"#[0-9a-fA-F]{6}", s)]: the matches from left to right,
    the search going on behind each match. [skip] counts the characters
    of the last match still to pass. *)
Fixpoint findall_hex_from (skip : nat) (s : string) : list string :=
  match s with
  | EmptyString => []
  | String c s' =>
      match skip with
      | S k => findall_hex_from k s'
      | O =>
          if Ascii.eqb c "#" && hex_prefix 6 s'
          then String c (PyStr2.take 6 s') :: findall_hex_from 6 s'
          else findall_hex_from 0 s'
      end
  end.

Definition findall_hex (s : string) : list string := findall_hex_from 0 s.

(** [_extract_colors_from_css], on the values of the [style] attributes
    of the document in document order. *)
Definition extract_colors_from_css {order : SetOrder}
  (styles : list string) : list string :=
  let colors := flat_map findall_hex styles in
  firstn 10 (list_set colors).

(** ** [services/scraper.py]: the text of the page

    The end of [_extract_main_text], on the text taken from the
    document. *)
Definition clean_main_text (text : string) : string :=
  let text := PyStr2.join " " (PyStr2.split text) in
  PyStr2.take 5000 text.

(** No whitespace but single blanks, none of them first. [after_blank]
    says that the character before was a blank, or that there was none. *)
Fixpoint single_blanks_from (after_blank : bool) (s : string) : bool :=
  match s with
  | EmptyString => true
  | String c s' =>
      if PyStr2.isspace c
      then Ascii.eqb c " " && negb after_blank && single_blanks_from true s'
      else single_blanks_from false s'
  end.

Definition single_blanks (s : string) : bool := single_blanks_from true s.

(** The characters of a string that are no whitespace, in order. *)
Definition letters (s : string) : list ascii :=
  filter (fun c => negb (PyStr2.isspace c)) (list_ascii_of_string s).

(** A word: not empty, no whitespace in it. *)
Definition is_word (w : string) : Prop :=
  w <> EmptyString /\ letters w = list_ascii_of_string w.

(** ** [services/figma_export.py]: the carousel *)

(** A value of the exported dictionary. *)
Inductive figma : Type :=
| FNone
| FInt (n : Z)
| FFloat (x : float)
| FStr (s : string)
| FList (items : list figma)
| FDict (fields : list (string * figma)).

(** [d[key]] for a dictionary; [None] for a missing key or another value. *)
Definition figma_get (key : string) (d : figma) : option figma :=
  match d with
  | FDict fields =>
      match find (fun kv => String.eqb (fst kv) key) fields with
      | Some kv => Some (snd kv)
      | None => None
      end
  | _ => None
  end.

Record CarouselSlide : Type := {
  slide_number : Z;
  title : string;
  content : string;
  visual_hint : option string
}.

Definition figma_opt_str (s : option string) : figma :=
  match s with
  | Some s => FStr s
  | None => FNone
  end.

(** [s or ""] *)
Definition or_empty (s : option string) : string :=
  match s with
  | Some s => s
  | None => EmptyString
  end.

Definition export_linkedin_carousel (carousel_title : string)
  (slides : list CarouselSlide) (cover_text : option string)
  (brand_colors : option ColorPalette) : figma :=
  let primary_color :=
    match brand_colors with Some p => primary p | None => "#000000" end in
  let secondary_color :=
    match brand_colors with Some p => secondary p | None => "#FFFFFF" end in
  let accent_color :=
    match brand_colors with Some p => accent p | None => "#4A90E2" end in
  let cover :=
    FDict [("slideNumber", FInt 1);
           ("type", FStr "COVER");
           ("title", FStr carousel_title);
           ("subtitle", FStr (or_empty cover_text));
           ("colors",
            FDict [("background", FStr primary_color);
                   ("title", FStr secondary_color);
                   ("subtitle", FStr accent_color)]);
           ("layout", FDict [("width", FInt 1080); ("height", FInt 1080)])] in
  let content_slide (slide : CarouselSlide) :=
    FDict [("slideNumber", FInt (slide_number slide));
           ("type", FStr "CONTENT");
           ("title", FStr (title slide));
           ("content", FStr (content slide));
           ("visualHint", figma_opt_str (visual_hint slide));
           ("colors",
            FDict [("background", FStr secondary_color);
                   ("title", FStr primary_color);
                   ("content", FStr primary_color);
                   ("accent", FStr accent_color)]);
           ("layout",
            FDict [("width", FInt 1080); ("height", FInt 1080);
                   ("padding", FInt 60)]);
           ("typography",
            FDict [("title",
                    FDict [("fontSize", FInt 44);
                           ("fontWeight", FStr "bold");
                           ("lineHeight", FFloat 1.2)]);
                   ("content",
                    FDict [("fontSize", FInt 28);
                           ("fontWeight", FStr "normal");
                           ("lineHeight", FFloat 1.5)])])] in
  let figma_slides := cover :: map content_slide slides in
  FDict [("name", FStr ("LinkedIn Carousel - " ++ carousel_title));
         ("type", FStr "CAROUSEL");
         ("totalSlides", FInt (Z.of_nat (List.length figma_slides)));
         ("slides", FList figma_slides);
         ("colors",
          FDict [("primary", FStr primary_color);
                 ("secondary", FStr secondary_color);
                 ("accent", FStr accent_color)])].

(** ** Checking a property on a finite range by evaluation *)

Lemma in_bytes (n : Z) : 0 <= n <= 255 -> In n bytes.
Proof.
  intros Hn. unfold bytes.
  replace n with (Z.of_nat (Z.to_nat n)) by lia.
  apply in_map, in_seq. lia.
Qed.

Lemma bytes_forall (p : Z -> bool) :
  forallb p bytes = true -> forall n, 0 <= n <= 255 -> p n = true.
Proof.
  intros Hall n Hn. rewrite forallb_forall in Hall. apply Hall, in_bytes, Hn.
Qed.

Lemma in_all_ascii (c : ascii) : In c all_ascii.
Proof.
  unfold all_ascii. rewrite <- (ascii_nat_embedding c).
  apply in_map, in_seq. pose proof (nat_ascii_bounded c). lia.
Qed.

Lemma ascii_forall (p : ascii -> bool) :
  forallb p all_ascii = true -> forall c, p c = true.
Proof.
  intros Hall c. rewrite forallb_forall in Hall. apply Hall, in_all_ascii.
Qed.

Lemma ascii_forall2 (p : ascii -> ascii -> bool) :
  forallb (fun a => forallb (p a) all_ascii) all_ascii = true ->
  forall a b, p a b = true.
Proof.
  intros Hall a b.
  pose proof (ascii_forall _ Hall a) as Ha. cbv beta in Ha.
  apply (ascii_forall _ Ha).
Qed.

(** ** Hexadecimal conversion *)

Section HexFacts.
Import PyStr.

Lemma upper_app (s t : string) : upper (s ++ t) = (upper s ++ upper t)%string.
Proof.
  induction s as [|c s IH]; simpl; [reflexivity | now rewrite IH].
Qed.

Lemma rgb_to_hex_unfold (r g b : Z) :
  rgb_to_hex (r, g, b)
  = String "#" (byte_hex r ++ byte_hex g ++ byte_hex b)%string.
Proof.
  unfold rgb_to_hex, byte_hex. simpl. now rewrite !upper_app.
Qed.

Lemma byte_ok_range (n : Z) : 0 <= n <= 255 -> byte_ok n = true.
Proof. apply bytes_forall. vm_compute. reflexivity. Qed.

Lemma byte_hex_shape (n : Z) :
  0 <= n <= 255 ->
  exists a b,
    byte_hex n = String a (String b EmptyString)
    /\ is_upper_hex_digit a = true /\ is_upper_hex_digit b = true
    /\ hex_pair_value a b = Some n.
Proof.
  intros Hn. pose proof (byte_ok_range n Hn) as Hok. unfold byte_ok in Hok.
  destruct (byte_hex n) as [|a [|b [|? ?]]]; try discriminate.
  apply andb_prop in Hok as [Hab Hv]. apply andb_prop in Hab as [Ha Hb].
  destruct (hex_pair_value a b) as [v|] eqn:Hp; try discriminate.
  apply Z.eqb_eq in Hv. subst v. exists a, b. auto.
Qed.

(** [int] reads two hexadecimal digits as their value. *)
Lemma int16_pair (a b : ascii) (v : Z) :
  hex_pair_value a b = Some v ->
  int16 (String a (String b EmptyString)) = Ok v.
Proof.
  revert v.
  assert (H : forall a b,
             match hex_pair_value a b with
             | Some v =>
                 match int16 (String a (String b EmptyString)) with
                 | Ok w => v =? w
                 | Raise _ => false
                 end
             | None => true
             end = true).
  { apply ascii_forall2. vm_compute. reflexivity. }
  intros v Hv. specialize (H a b). rewrite Hv in H.
  destruct (int16 _) as [w|]; try discriminate.
  apply Z.eqb_eq in H. now subst.
Qed.

Lemma upper_hex_is_hex (c : ascii) :
  is_upper_hex_digit c = true -> is_hex_digit c = true.
Proof.
  revert c.
  assert (H : forall c, implb (is_upper_hex_digit c) (is_hex_digit c) = true)
    by (apply ascii_forall; vm_compute; reflexivity).
  intros c Hc. specialize (H c). now rewrite Hc in H.
Qed.

Lemma hex_digit_not_hash (c : ascii) :
  is_hex_digit c = true -> Ascii.eqb c "#" = false.
Proof.
  revert c.
  assert (H : forall c, implb (is_hex_digit c) (negb (Ascii.eqb c "#")) = true)
    by (apply ascii_forall; vm_compute; reflexivity).
  intros c Hc. specialize (H c). rewrite Hc in H. cbn [implb] in H.
  apply negb_true_iff. exact H.
Qed.

Lemma hex_pair_defined (a b : ascii) :
  is_hex_digit a = true -> is_hex_digit b = true ->
  exists v, hex_pair_value a b = Some v /\ 0 <= v <= 255.
Proof.
  revert a b.
  assert (H : forall a b,
             implb (is_hex_digit a && is_hex_digit b)
               match hex_pair_value a b with
               | Some v => (0 <=? v) && (v <=? 255)
               | None => false
               end = true)
    by (apply ascii_forall2; vm_compute; reflexivity).
  intros a b Ha Hb. specialize (H a b). rewrite Ha, Hb in H. simpl in H.
  destruct (hex_pair_value a b) as [v|]; try discriminate.
  exists v. split; [reflexivity | lia].
Qed.

Lemma substring_0_0 (s : string) : substring 0 0 s = EmptyString.
Proof. destruct s; reflexivity. Qed.

(** The conversion of six digits, whatever follows them. *)
Lemma hex_to_rgb_digits (a1 a2 b1 b2 c1 c2 : ascii) (rest : string) (r g b : Z) :
  is_hex_digit a1 = true ->
  hex_pair_value a1 a2 = Some r ->
  hex_pair_value b1 b2 = Some g ->
  hex_pair_value c1 c2 = Some b ->
  hex_to_rgb
    (String a1 (String a2 (String b1 (String b2 (String c1 (String c2 rest))))))
  = Ok (r, g, b).
Proof.
  intros Ha Hr Hg Hb. unfold hex_to_rgb.
  cbn [lstrip_hash]. rewrite (hex_digit_not_hash a1 Ha).
  unfold slice2. cbn [substring].
  rewrite !substring_0_0.
  rewrite (int16_pair _ _ _ Hr), (int16_pair _ _ _ Hg), (int16_pair _ _ _ Hb).
  reflexivity.
Qed.

Lemma hex_to_rgb_hash (s : string) :
  hex_to_rgb (String "#" s) = hex_to_rgb s.
Proof. reflexivity. Qed.

Lemma six_chars (p : ascii -> bool) (t : string) :
  (String.length t =? 6)%nat && all_chars p t = true ->
  exists a1 a2 b1 b2 c1 c2,
    t = String a1 (String a2 (String b1 (String b2 (String c1 (String c2 EmptyString)))))
    /\ p a1 = true /\ p a2 = true /\ p b1 = true
    /\ p b2 = true /\ p c1 = true /\ p c2 = true.
Proof.
  intros H. apply andb_prop in H as [Hlen Hall].
  destruct t as [|a1 [|a2 [|b1 [|b2 [|c1 [|c2 [|? ?]]]]]]]; try discriminate.
  cbn [all_chars] in Hall. split_andb.
  exists a1, a2, b1, b2, c1, c2. auto 10.
Qed.

Lemma six_hex_digits_convert (t : string) :
  six_hex_digits t = true ->
  exists c, hex_triple t = Some c /\ hex_to_rgb t = Ok c /\ valid_rgb c.
Proof.
  intros H. apply six_chars in H
    as (a1 & a2 & b1 & b2 & c1 & c2 & -> & Ha1 & Ha2 & Hb1 & Hb2 & Hc1 & Hc2).
  destruct (hex_pair_defined a1 a2 Ha1 Ha2) as (r & Hr & Rr).
  destruct (hex_pair_defined b1 b2 Hb1 Hb2) as (g & Hg & Rg).
  destruct (hex_pair_defined c1 c2 Hc1 Hc2) as (b & Hb & Rb).
  exists (r, g, b). cbn [hex_triple]. rewrite Hr, Hg, Hb.
  split; [reflexivity|]. split; [|cbn; auto].
  now apply hex_to_rgb_digits.
Qed.

(** Two uppercase digits are what [rgb_to_hex] writes for their value. *)
Lemma upper_pair_canonical (a b : ascii) :
  is_upper_hex_digit a = true -> is_upper_hex_digit b = true ->
  exists v,
    hex_pair_value a b = Some v
    /\ byte_hex v = String a (String b EmptyString).
Proof.
  revert a b.
  assert (H : forall a b,
             implb (is_upper_hex_digit a && is_upper_hex_digit b)
               match hex_pair_value a b with
               | Some v => String.eqb (byte_hex v) (String a (String b EmptyString))
               | None => false
               end = true)
    by (apply ascii_forall2; vm_compute; reflexivity).
  intros a b Ha Hb. specialize (H a b). rewrite Ha, Hb in H. cbn [andb implb] in H.
  destruct (hex_pair_value a b) as [v|]; try discriminate.
  exists v. split; [reflexivity|]. now apply String.eqb_eq.
Qed.

End HexFacts.

(** ** The conversions: what the specification claims *)

(** C5. For an RGB triple with every channel in [0,255], converting to hex
    and back gives the triple again; the hex string is ['#'] followed by
    six uppercase hexadecimal digits, two for each channel in order, seven
    characters in all. *)
Theorem hex_round_trip (c : rgb) :
  valid_rgb c ->
  hex_to_rgb (rgb_to_hex c) = Ok c
  /\ canonical_hex (rgb_to_hex c) = true
  /\ String.length (rgb_to_hex c) = 7%nat
  /\ hex_triple (strip_one_hash (rgb_to_hex c)) = Some c.
Proof.
  destruct c as [[r g] b]. intros (Hr & Hg & Hb).
  destruct (byte_hex_shape r Hr) as (a1 & a2 & Er & Ua1 & Ua2 & Vr).
  destruct (byte_hex_shape g Hg) as (b1 & b2 & Eg & Ub1 & Ub2 & Vg).
  destruct (byte_hex_shape b Hb) as (c1 & c2 & Eb & Uc1 & Uc2 & Vb).
  rewrite rgb_to_hex_unfold, Er, Eg, Eb. cbn [append].
  repeat split.
  - rewrite hex_to_rgb_hash.
    apply hex_to_rgb_digits; auto using upper_hex_is_hex.
  - cbn [canonical_hex all_chars String.length].
    rewrite Ua1, Ua2, Ub1, Ub2, Uc1, Uc2. reflexivity.
  - cbn. now rewrite Vr, Vg, Vb.
Qed.

Lemma hex_round_trip_witness :
  valid_rgb (255, 0, 171)
  /\ hex_to_rgb (rgb_to_hex (255, 0, 171)) = Ok (255, 0, 171)
  /\ canonical_hex (rgb_to_hex (255, 0, 171)) = true
  /\ String.length (rgb_to_hex (255, 0, 171)) = 7%nat
  /\ hex_triple (strip_one_hash (rgb_to_hex (255, 0, 171))) = Some (255, 0, 171).
Proof.
  assert (H : valid_rgb (255, 0, 171)) by (cbv [valid_rgb]; lia).
  split; [exact H | exact (hex_round_trip (255, 0, 171) H)].
Defined.

(** C10. For a string made of ['#'] and exactly six uppercase hexadecimal
    digits, converting to RGB succeeds and converting the triple back
    gives the string again. *)
Theorem hex_reverse_round_trip (h : string) :
  canonical_hex h = true ->
  exists c, hex_to_rgb h = Ok c /\ rgb_to_hex c = h.
Proof.
  destruct h as [|c0 t]; [discriminate|]. cbn [canonical_hex].
  intros H. rewrite <- andb_assoc in H. apply andb_prop in H as [Hc0 H].
  apply Ascii.eqb_eq in Hc0. subst c0.
  apply six_chars in H
    as (a1 & a2 & b1 & b2 & c1 & c2 & -> & Ha1 & Ha2 & Hb1 & Hb2 & Hc1 & Hc2).
  destruct (upper_pair_canonical a1 a2 Ha1 Ha2) as (r & Vr & Er).
  destruct (upper_pair_canonical b1 b2 Hb1 Hb2) as (g & Vg & Eg).
  destruct (upper_pair_canonical c1 c2 Hc1 Hc2) as (b & Vb & Eb).
  exists (r, g, b). split.
  - rewrite hex_to_rgb_hash.
    apply hex_to_rgb_digits; auto using upper_hex_is_hex.
  - rewrite rgb_to_hex_unfold, Er, Eg, Eb. reflexivity.
Qed.

Lemma hex_reverse_round_trip_witness :
  canonical_hex "#0A1B2C" = true
  /\ exists c, hex_to_rgb "#0A1B2C" = Ok c /\ rgb_to_hex c = "#0A1B2C".
Proof.
  split; [reflexivity | exact (hex_reverse_round_trip "#0A1B2C" eq_refl)].
Defined.

(** [hex_to_rgb] fails exactly when one of the three slices is no base 16
    literal for [int]. *)
Lemma hex_to_rgb_raises (s : string) :
  let t := PyStr.lstrip_hash s in
  hex_to_rgb s = Raise ValueError
  <-> PyStr.int16 (PyStr.slice2 0 t) = Raise ValueError
      \/ PyStr.int16 (PyStr.slice2 2 t) = Raise ValueError
      \/ PyStr.int16 (PyStr.slice2 4 t) = Raise ValueError.
Proof.
  cbv zeta. unfold hex_to_rgb.
  destruct (PyStr.int16 (PyStr.slice2 0 _)) as [r|[]];
    destruct (PyStr.int16 (PyStr.slice2 2 _)) as [g|[]];
    destruct (PyStr.int16 (PyStr.slice2 4 _)) as [b|[]];
    cbn [bind]; intuition discriminate.
Qed.

Lemma strip_one_hash_convert (s : string) :
  six_hex_digits (strip_one_hash s) = true ->
  hex_to_rgb s = hex_to_rgb (strip_one_hash s).
Proof.
  destruct s as [|c0 t]; [reflexivity|]. cbn [strip_one_hash].
  destruct (Ascii.eqb_spec c0 "#") as [->|]; reflexivity.
Qed.

(** C2, as the code has it. [hex_to_rgb] has no shape check of its own: it
    drops every leading ['#'] and hands the slices [0:2], [2:4] and [4:6]
    to [int(_, 16)]. A string that is exactly six hexadecimal digits after
    one leading ['#'] is dropped converts to the corresponding triple, so a
    failure, which is always the [ValueError] of [int], implies that the
    string has not that shape; and the call fails exactly when one of the
    three slices is not a literal [int] accepts. *)
Theorem hex_to_rgb_six_digits (s : string) :
  (six_hex_digits (strip_one_hash s) = true ->
   exists c, hex_triple (strip_one_hash s) = Some c /\ hex_to_rgb s = Ok c)
  /\ (forall e, hex_to_rgb s = Raise e ->
      e = ValueError /\ six_hex_digits (strip_one_hash s) = false)
  /\ (hex_to_rgb s = Raise ValueError
      <-> PyStr.int16 (PyStr.slice2 0 (PyStr.lstrip_hash s)) = Raise ValueError
          \/ PyStr.int16 (PyStr.slice2 2 (PyStr.lstrip_hash s)) = Raise ValueError
          \/ PyStr.int16 (PyStr.slice2 4 (PyStr.lstrip_hash s)) = Raise ValueError).
Proof.
  assert (Hok : six_hex_digits (strip_one_hash s) = true ->
                exists c, hex_triple (strip_one_hash s) = Some c
                          /\ hex_to_rgb s = Ok c).
  { intros H. destruct (six_hex_digits_convert _ H) as (c & Ht & Hc & _).
    exists c. split; [exact Ht|]. now rewrite strip_one_hash_convert. }
  split; [exact Hok|]. split; [|apply hex_to_rgb_raises].
  intros [] He. split; [reflexivity|].
  destruct (six_hex_digits (strip_one_hash s)) eqn:Hs; [|reflexivity].
  destruct (Hok eq_refl) as (c & _ & Hc). congruence.
Qed.

Lemma hex_to_rgb_six_digits_witness :
  six_hex_digits (strip_one_hash "#ff8000") = true
  /\ exists c, hex_triple (strip_one_hash "#ff8000") = Some c
               /\ hex_to_rgb "#ff8000" = Ok c.
Proof.
  split; [reflexivity|].
  exact (proj1 (hex_to_rgb_six_digits "#ff8000") eq_refl).
Defined.

(** C2 fails as stated: strings that are not six hexadecimal digits after
    one ['#'] is dropped convert without error. Characters after the sixth
    are ignored, every leading ['#'] is dropped, and a slice may hold a
    sign or a blank. *)
Lemma hex_to_rgb_accepts_other_shapes :
  (six_hex_digits (strip_one_hash "1234567") = false
   /\ hex_to_rgb "1234567" = Ok (18, 52, 86))
  /\ (six_hex_digits (strip_one_hash "##FFFFFF") = false
      /\ hex_to_rgb "##FFFFFF" = Ok (255, 255, 255))
  /\ (six_hex_digits (strip_one_hash "+1-2 3") = false
      /\ hex_to_rgb "+1-2 3" = Ok (1, -2, 3)).
Proof. repeat split; vm_compute; reflexivity. Qed.

(** ** Neutrality and the fallback palette *)

(** C9. [is_neutral] holds exactly when the largest channel exceeds the
    smallest by less than 30; a difference of 29 is neutral, one of 31 is
    not. *)
Theorem is_neutral_threshold :
  (forall r g b : Z,
      is_neutral (r, g, b) = true
      <-> Z.max r (Z.max g b) - Z.min r (Z.min g b) < 30)
  /\ is_neutral (100, 100, 129) = true
  /\ is_neutral (100, 100, 131) = false.
Proof.
  split; [|split; reflexivity].
  intros r g b. unfold is_neutral, max3, min3. rewrite Z.ltb_lt. lia.
Qed.

(** C4. For the empty sequence [classify_colors] returns the fixed
    fallback palette, field by field. *)
Theorem classify_colors_empty :
  classify_colors []
  = {| primary := "#000000";
       secondary := "#FFFFFF";
       accent := "#CCCCCC";
       neutrals := ["#F5F5F5"; "#333333"];
       all_colors := ["#000000"; "#FFFFFF"; "#CCCCCC"; "#F5F5F5"; "#333333"] |}.
Proof. reflexivity. Qed.

(** ** Sorting keeps the elements *)

Section SortFacts.
Context {A K : Type}.
Variable key : A -> K.
Variable lt : K -> K -> bool.

Lemma insert_by_perm (x : A) (l : list A) :
  Permutation (insert_by key lt x l) (x :: l).
Proof.
  induction l as [|y l IH]; cbn [insert_by]; [reflexivity|].
  destruct (lt (key y) (key x)); [|reflexivity].
  rewrite IH. apply perm_swap.
Qed.

Lemma sort_by_perm (l : list A) : Permutation (sort_by key lt l) l.
Proof.
  induction l as [|x l IH]; cbn [sort_by fold_right]; [reflexivity|].
  rewrite insert_by_perm. now apply perm_skip.
Qed.

End SortFacts.

Lemma py_sort_perm {A K : Type} (key : A -> K) (lt : K -> K -> bool)
  (reverse : bool) (l : list A) :
  Permutation (py_sort key lt reverse l) l.
Proof. unfold py_sort. destruct reverse; apply sort_by_perm. Qed.

Lemma vibrant_colors_perm (cs : list rgb) :
  Permutation (vibrant_colors cs) (filter (fun c => negb (is_neutral c)) cs).
Proof. apply py_sort_perm. Qed.

Lemma neutral_colors_perm (cs : list rgb) :
  Permutation (neutral_colors cs) (filter is_neutral cs).
Proof. apply py_sort_perm. Qed.

Lemma vibrant_colors_in (cs : list rgb) (c : rgb) :
  In c (vibrant_colors cs) <-> In c cs /\ is_neutral c = false.
Proof.
  split.
  - intros H. apply (Permutation_in _ (vibrant_colors_perm cs)) in H.
    apply filter_In in H as [H1 H2]. now apply negb_true_iff in H2.
  - intros [H1 H2].
    apply (Permutation_in _ (Permutation_sym (vibrant_colors_perm cs))).
    apply filter_In. split; [exact H1 | now apply negb_true_iff].
Qed.

Lemma neutral_colors_in (cs : list rgb) (c : rgb) :
  In c (neutral_colors cs) <-> In c cs /\ is_neutral c = true.
Proof.
  split.
  - intros H. apply (Permutation_in _ (neutral_colors_perm cs)) in H.
    now apply filter_In in H.
  - intros H.
    apply (Permutation_in _ (Permutation_sym (neutral_colors_perm cs))).
    now apply filter_In.
Qed.

(** ** Iterating a set, and cutting the result *)

Section SetFacts.
Context {order : SetOrder}.

Lemma list_set_NoDup (l : list string) : NoDup (list_set l).
Proof.
  apply (Permutation_NoDup (Permutation_sym (list_set_members l))).
  apply NoDup_nodup.
Qed.

Lemma list_set_In (l : list string) (x : string) :
  In x (list_set l) <-> In x l.
Proof.
  rewrite <- (nodup_In string_dec l). split; apply Permutation_in.
  - apply list_set_members.
  - apply Permutation_sym, list_set_members.
Qed.

Lemma list_set_length (l : list string) :
  List.length (list_set l) = List.length (nodup string_dec l).
Proof. apply Permutation_length, list_set_members. Qed.

End SetFacts.

Lemma firstn_incl {A : Type} (n : nat) (l : list A) : incl (firstn n l) l.
Proof.
  intros x Hx. rewrite <- (firstn_skipn n l). apply in_or_app. now left.
Qed.

Lemma firstn_NoDup {A : Type} (n : nat) (l : list A) :
  NoDup l -> NoDup (firstn n l).
Proof.
  intros H. rewrite <- (firstn_skipn n l) in H.
  now apply NoDup_app_remove_r in H.
Qed.

(** ** Merging two palettes *)

(** C6. The merged palette takes its primary and its accent from the
    first palette and its secondary from the primary of the second, not
    from the second's secondary. *)
Theorem merge_palettes_roles :
  (forall (order : SetOrder) (a b : ColorPalette),
      primary (merge_palettes a b) = primary a
      /\ secondary (merge_palettes a b) = primary b
      /\ accent (merge_palettes a b) = accent a)
  /\ (forall order : SetOrder,
         primary (merge_palettes logo_example site_example) = "#111111"
         /\ secondary (merge_palettes logo_example site_example) = "#AAAAAA"
         /\ secondary (merge_palettes logo_example site_example)
            <> secondary site_example).
Proof.
  split; intros; repeat split. cbn. discriminate.
Qed.

(** C7. The merged [neutrals] are the first 4 entries, and the merged
    [all_colors] the first 12, of an enumeration without repetition of
    the union of the two input lists: no hex string comes twice, the
    lengths are at most 4 and 12, every entry comes from an input list,
    and nothing is lost when the union is no larger than the cap. *)
Theorem merge_palettes_lists (order : SetOrder) (a b : ColorPalette) :
  let m := merge_palettes a b in
  let ns := nodup string_dec (neutrals a ++ neutrals b) in
  let cs := nodup string_dec (all_colors a ++ all_colors b) in
  (exists u, Permutation u ns /\ neutrals m = firstn 4 u)
  /\ (exists u, Permutation u cs /\ all_colors m = firstn 12 u)
  /\ NoDup (neutrals m) /\ NoDup (all_colors m)
  /\ List.length (neutrals m) = Nat.min 4 (List.length ns)
  /\ List.length (all_colors m) = Nat.min 12 (List.length cs)
  /\ incl (neutrals m) (neutrals a ++ neutrals b)
  /\ incl (all_colors m) (all_colors a ++ all_colors b)
  /\ ((List.length ns <= 4)%nat ->
      incl (neutrals a ++ neutrals b) (neutrals m))
  /\ ((List.length cs <= 12)%nat ->
      incl (all_colors a ++ all_colors b) (all_colors m)).
Proof.
  cbv zeta. cbn [merge_palettes neutrals all_colors].
  repeat match goal with |- _ /\ _ => split end.
  - eexists. split; [apply list_set_members | reflexivity].
  - eexists. split; [apply list_set_members | reflexivity].
  - apply firstn_NoDup, list_set_NoDup.
  - apply firstn_NoDup, list_set_NoDup.
  - now rewrite length_firstn, list_set_length.
  - now rewrite length_firstn, list_set_length.
  - intros x Hx. apply firstn_incl in Hx. exact (proj1 (list_set_In _ _) Hx).
  - intros x Hx. apply firstn_incl in Hx. exact (proj1 (list_set_In _ _) Hx).
  - intros Hlen x Hx. rewrite firstn_all2.
    + exact (proj2 (list_set_In _ _) Hx).
    + rewrite list_set_length. exact Hlen.
  - intros Hlen x Hx. rewrite firstn_all2.
    + exact (proj2 (list_set_In _ _) Hx).
    + rewrite list_set_length. exact Hlen.
Qed.

Lemma merge_palettes_lists_witness :
  let m := @merge_palettes first_seen logo_example site_example in
  NoDup (all_colors m) /\ (List.length (all_colors m) <= 12)%nat
  /\ incl (all_colors logo_example ++ all_colors site_example) (all_colors m).
Proof.
  pose proof (merge_palettes_lists first_seen logo_example site_example) as H.
  cbv zeta in *.
  destruct H as (_ & _ & _ & Hnd & _ & Hlen & _ & _ & _ & Hall).
  split; [exact Hnd|]. split; [rewrite Hlen; apply Nat.le_min_l|].
  apply Hall. vm_compute. lia.
Defined.

(** ** The palette invariant *)

Lemma nth_sorted_in (l cs : list rgb) (i : nat) (d : rgb) :
  (forall c, In c l -> In c cs) -> (i <? List.length l)%nat = true ->
  In (nth i l d) cs.
Proof.
  intros Hl Hi. apply Nat.ltb_lt in Hi. now apply Hl, nth_In.
Qed.

Lemma classify_colors_invariant (cs : list rgb) :
  palette_invariant (classify_colors cs).
Proof.
  destruct cs as [|first rest].
  { split; [intros _; cbn; auto 10 | intros x Hx; cbn in *; tauto]. }
  unfold classify_colors. cbv zeta. set (cs := first :: rest).
  assert (Hv : forall c, In c (vibrant_colors cs) -> In c cs)
    by (intros c Hc; now apply vibrant_colors_in in Hc).
  assert (Hn : forall c, In c (neutral_colors cs) -> In c cs)
    by (intros c Hc; now apply neutral_colors_in in Hc).
  assert (Hp : In match vibrant_colors cs with v :: _ => v | [] => first end cs).
  { destruct (vibrant_colors cs) as [|v vs]; [now left | apply Hv; now left]. }
  split.
  - intros _. cbn [primary secondary accent all_colors].
    repeat split; apply in_map.
    + exact Hp.
    + destruct (1 <? List.length (vibrant_colors cs))%nat eqn:H1.
      * now apply nth_sorted_in.
      * destruct (neutral_colors cs) as [|n ns]; [|apply Hn; now left].
        destruct (1 <? List.length cs)%nat eqn:H2; [|exact Hp].
        apply nth_sorted_in; auto.
    + destruct (2 <? List.length (vibrant_colors cs))%nat eqn:H2;
        [now apply nth_sorted_in|].
      destruct (1 <? List.length (vibrant_colors cs))%nat eqn:H1;
        [now apply nth_sorted_in | exact Hp].
  - cbn [neutrals all_colors]. intros x Hx.
    apply in_map_iff in Hx as (c & <- & Hc).
    apply in_map, Hn. now apply firstn_incl in Hc.
Qed.

(** C1 fails for [merge_palettes]. Whatever the iteration order of the
    set, merging a palette without colour list into one with colours
    leaves a primary that is not among [all_colors]; and with members
    iterated as first met, the cut to 12 drops the primary of a palette
    that [classify_colors] built from thirteen samples. *)
Lemma merge_palettes_breaks_invariant :
  (palette_invariant bare_logo /\ palette_invariant grey_site
   /\ forall order : SetOrder,
       ~ palette_invariant (merge_palettes bare_logo grey_site))
  /\ ~ palette_invariant
        (@merge_palettes first_seen
           (classify_colors thirteen_samples) (classify_colors thirteen_samples)).
Proof.
  split; [split; [|split]|].
  - split; [intros H; now elim H | intros x []].
  - apply classify_colors_invariant.
  - intros order [H _].
    assert (Hin : In "#AAAAAA" (all_colors (merge_palettes bare_logo grey_site))).
    { cbn [merge_palettes all_colors]. rewrite firstn_all2.
      - apply (proj2 (list_set_In _ _)). now left.
      - rewrite list_set_length. cbn. lia. }
    assert (Hne : all_colors (merge_palettes bare_logo grey_site) <> [])
      by (intros E; rewrite E in Hin; exact Hin).
    destruct (H Hne) as (Hp & _).
    cbn [merge_palettes all_colors primary] in Hp.
    apply firstn_incl in Hp. apply (proj1 (list_set_In _ _)) in Hp.
    vm_compute in Hp.
    destruct Hp as [Hp|[]]. discriminate.
  - intros [H _].
    assert (Hne : all_colors
                    (@merge_palettes first_seen
                       (classify_colors thirteen_samples)
                       (classify_colors thirteen_samples)) <> [])
      by (vm_compute; discriminate).
    destruct (H Hne) as (Hp & _). vm_compute in Hp.
    repeat (destruct Hp as [Hp|Hp]; [discriminate|]). exact Hp.
Qed.

(** C1, as the code has it. Every palette [classify_colors] returns
    satisfies the invariant. [merge_palettes] keeps it when both inputs
    satisfy it, both have colours or neither has, and the union of their
    [all_colors] has at most 12 distinct entries, so that nothing is cut. *)
Theorem palette_invariant_kept :
  (forall cs : list rgb, palette_invariant (classify_colors cs))
  /\ (forall (order : SetOrder) (a b : ColorPalette),
         palette_invariant a -> palette_invariant b ->
         (all_colors a = [] <-> all_colors b = []) ->
         (List.length (nodup string_dec (all_colors a ++ all_colors b)) <= 12)%nat ->
         palette_invariant (merge_palettes a b)).
Proof.
  split; [apply classify_colors_invariant|].
  intros order a b [Ha Na] [Hb Nb] Hab Hlen.
  assert (Hall : forall x, In x (all_colors a ++ all_colors b) ->
                           In x (all_colors (merge_palettes a b))).
  { intros x Hx. cbn [merge_palettes all_colors]. rewrite firstn_all2.
    - exact (proj2 (list_set_In _ _) Hx).
    - rewrite list_set_length. exact Hlen. }
  split.
  - intros Hne.
    assert (Hane : all_colors a <> []).
    { intros Ea. apply Hne. cbn [merge_palettes all_colors].
      rewrite Ea, (proj1 Hab Ea). cbn [app].
      destruct (list_set []) as [|x l] eqn:E; [reflexivity|].
      assert (Hx : In x (list_set [])) by (rewrite E; now left).
      apply (proj1 (list_set_In _ _)) in Hx. destruct Hx. }
    assert (Hbne : all_colors b <> []) by (intros Eb; apply Hane, Hab, Eb).
    destruct (Ha Hane) as (Ha1 & _ & Ha3). destruct (Hb Hbne) as (Hb1 & _).
    cbn [merge_palettes primary secondary accent].
    repeat split; apply Hall, in_or_app; auto.
  - intros x Hx. cbn [merge_palettes neutrals] in Hx.
    apply firstn_incl in Hx. apply (proj1 (list_set_In _ _)) in Hx.
    apply Hall, in_or_app. apply in_app_or in Hx as [Hx|Hx]; auto.
Qed.

Lemma palette_invariant_kept_witness :
  palette_invariant
    (@merge_palettes first_seen
       (classify_colors [(255, 0, 0); (10, 10, 10)])
       (classify_colors [(0, 0, 255)])).
Proof.
  apply (proj2 palette_invariant_kept first_seen).
  - apply (proj1 palette_invariant_kept).
  - apply (proj1 palette_invariant_kept).
  - vm_compute. split; discriminate.
  - vm_compute. lia.
Defined.

(** ** Determinism *)

(** C8 fails for the lists of [merge_palettes]: their order is the
    iteration order of a set of strings, which differs from one
    interpreter process to the next. The same two palettes merge to
    different results under two orders. *)
Lemma merge_palettes_order_varies :
  all_colors (@merge_palettes first_seen red_logo blue_site)
  = ["#FF0000"; "#0000FF"]
  /\ all_colors (@merge_palettes last_seen red_logo blue_site)
     = ["#0000FF"; "#FF0000"]
  /\ @merge_palettes first_seen red_logo blue_site
     <> @merge_palettes last_seen red_logo blue_site.
Proof.
  split; [reflexivity|]. split; [reflexivity|].
  intros E. apply (f_equal all_colors) in E. vm_compute in E. discriminate.
Qed.

(** C8, as the code has it. [classify_colors] is a function of its input
    sequence, and [merge_palettes] is a function of the two palettes and
    of the iteration order of the process. Under any two iteration orders
    the merged primary, secondary and accent are the same and the two
    lists have the same lengths; the lists hold the same entries, possibly
    in another order, when the union was not cut. *)
Theorem determinism :
  (forall cs1 cs2 : list rgb,
      cs1 = cs2 -> classify_colors cs1 = classify_colors cs2)
  /\ (forall (order : SetOrder) (a1 b1 a2 b2 : ColorPalette),
         a1 = a2 -> b1 = b2 -> merge_palettes a1 b1 = merge_palettes a2 b2)
  /\ (forall (o1 o2 : SetOrder) (a b : ColorPalette),
         let m1 := @merge_palettes o1 a b in
         let m2 := @merge_palettes o2 a b in
         primary m1 = primary m2
         /\ secondary m1 = secondary m2
         /\ accent m1 = accent m2
         /\ List.length (neutrals m1) = List.length (neutrals m2)
         /\ List.length (all_colors m1) = List.length (all_colors m2)
         /\ ((List.length (nodup string_dec (neutrals a ++ neutrals b)) <= 4)%nat ->
             Permutation (neutrals m1) (neutrals m2))
         /\ ((List.length (nodup string_dec (all_colors a ++ all_colors b)) <= 12)%nat ->
             Permutation (all_colors m1) (all_colors m2))).
Proof.
  split; [intros cs1 cs2 ->; reflexivity|].
  split; [intros order a1 b1 a2 b2 -> ->; reflexivity|].
  intros o1 o2 a b. cbv zeta.
  cbn [merge_palettes primary secondary accent neutrals all_colors].
  repeat match goal with |- _ /\ _ => split end; try reflexivity.
  - now rewrite !length_firstn, !list_set_length.
  - now rewrite !length_firstn, !list_set_length.
  - intros Hlen. rewrite !firstn_all2 by (rewrite list_set_length; exact Hlen).
    rewrite (@list_set_members o1), (@list_set_members o2). reflexivity.
  - intros Hlen. rewrite !firstn_all2 by (rewrite list_set_length; exact Hlen).
    rewrite (@list_set_members o1), (@list_set_members o2). reflexivity.
Qed.

Lemma determinism_witness :
  Permutation
    (all_colors (@merge_palettes first_seen red_logo blue_site))
    (all_colors (@merge_palettes last_seen red_logo blue_site)).
Proof.
  pose proof (proj2 (proj2 determinism) first_seen last_seen red_logo blue_site)
    as H.
  cbv zeta in H. destruct H as (_ & _ & _ & _ & _ & _ & H).
  apply H. vm_compute. lia.
Defined.

(** ** Sorting sorts *)

Section SortSorted.
Context {A K : Type}.
Variable key : A -> K.
Variable lt : K -> K -> bool.
(** The keys on which [lt] is a strict weak order. *)
Variable ok : K -> Prop.
Hypothesis lt_asym :
  forall a b, ok a -> ok b -> lt a b = true -> lt b a = false.
Hypothesis lt_negtrans :
  forall a b c, ok a -> ok b -> ok c ->
                lt a b = false -> lt b c = false -> lt a c = false.

Lemma insert_by_sorted (x : A) (l : list A) :
  ok (key x) -> Forall (fun y => ok (key y)) l ->
  StronglySorted (before key lt) l ->
  StronglySorted (before key lt) (insert_by key lt x l).
Proof.
  intros Hx Hl Hs. induction Hs as [|y l Hs IH Hy]; cbn [insert_by].
  - repeat constructor.
  - apply Forall_cons_iff in Hl as [Hoy Hl].
    destruct (lt (key y) (key x)) eqn:Hyx.
    + constructor; [now apply IH|].
      apply (Permutation_Forall (Permutation_sym (insert_by_perm key lt x l))).
      constructor; [|exact Hy].
      unfold before. now apply lt_asym.
    + constructor; [now constructor|].
      constructor; [exact Hyx|].
      rewrite Forall_forall in *. intros z Hz. unfold before.
      apply (lt_negtrans _ (key y)); auto. now apply Hy.
Qed.

Lemma sort_by_sorted (l : list A) :
  Forall (fun y => ok (key y)) l ->
  StronglySorted (before key lt) (sort_by key lt l).
Proof.
  induction l as [|x l IH]; intros Hl; cbn [sort_by fold_right].
  - constructor.
  - apply Forall_cons_iff in Hl as [Hx Hl].
    apply insert_by_sorted; [exact Hx | | now apply IH].
    apply (Permutation_Forall (Permutation_sym (sort_by_perm key lt l))), Hl.
Qed.

End SortSorted.

(** The first element of a sorted list stands before every element but itself. *)
Lemma sorted_head {A : Type} (R : A -> A -> Prop) (x : A) (l : list A) :
  StronglySorted R (x :: l) -> forall y, In y l -> R x y.
Proof.
  intros H y Hy. apply StronglySorted_inv in H as [_ H].
  rewrite Forall_forall in H. now apply H.
Qed.

Lemma sorted_weaken {A : Type} (R S : A -> A -> Prop) (l : list A) :
  (forall x y, R x y -> S x y) -> StronglySorted R l -> StronglySorted S l.
Proof.
  intros HRS H. induction H as [|x l H IH Hx]; constructor; [exact IH|].
  eapply Forall_impl; [|exact Hx]. intros y. apply HRS.
Qed.

Lemma vibrant_colors_sorted (cs : list rgb) :
  StronglySorted (fun x y => saturation y <= saturation x) (vibrant_colors cs).
Proof.
  unfold vibrant_colors, py_sort.
  eapply sorted_weaken;
    [| apply (sort_by_sorted saturation (fun a b => b <? a) (fun _ => True))].
  - intros x y H. unfold before in H. apply Z.ltb_ge in H. exact H.
  - intros a b _ _ H. apply Z.ltb_lt in H. apply Z.ltb_ge. lia.
  - intros a b c _ _ _ H1 H2. apply Z.ltb_ge in H1, H2. apply Z.ltb_ge. lia.
  - apply Forall_forall. auto.
Qed.

(** ** Comparing binary64 numbers

    [<] and [<=] on floats that are not NaN form a total preorder. *)

Section FloatOrder.

Lemma SFcompare_rank (x y : spec_float) :
  x <> S754_nan -> y <> S754_nan ->
  exists c,
    SFcompare x y = Some c
    /\ (c = Lt <-> rank_lt (sf_rank x) (sf_rank y))
    /\ (c = Gt <-> rank_lt (sf_rank y) (sf_rank x)).
Proof.
  intros Hx Hy.
  destruct x as [[]|[]| |[] m1 e1], y as [[]|[]| |[] m2 e2];
    try congruence; cbn [SFcompare sf_rank rank_lt];
    try (eexists; split; [reflexivity|]; split; split;
         solve [discriminate | lia | intros; reflexivity]).
  - destruct (Z.compare_spec e1 e2) as [He|He|He];
      [change (Pos.compare_cont Eq m1 m2) with (Pos.compare m1 m2);
       destruct (Pos.compare_spec m1 m2) as [Hm|Hm|Hm] | |];
      eexists; (split; [reflexivity|]); cbn [CompOpp];
      split; split; solve [discriminate | lia | intros; reflexivity].
  - destruct (Z.compare_spec e1 e2) as [He|He|He];
      [change (Pos.compare_cont Eq m1 m2) with (Pos.compare m1 m2);
       destruct (Pos.compare_spec m1 m2) as [Hm|Hm|Hm] | |];
      eexists; (split; [reflexivity|]);
      split; split; solve [discriminate | lia | intros; reflexivity].
Qed.

Lemma ltb_rank (x y : float) :
  not_nan x -> not_nan y ->
  ((x <? y)%float = true
   <-> rank_lt (sf_rank (Prim2SF x)) (sf_rank (Prim2SF y))).
Proof.
  intros Hx Hy. rewrite ltb_spec. unfold SFltb.
  destruct (SFcompare_rank _ _ Hx Hy) as (c & -> & Hlt & _).
  rewrite <- Hlt. destruct c; split; congruence.
Qed.

Lemma leb_rank (x y : float) :
  not_nan x -> not_nan y ->
  ((x <=? y)%float = true
   <-> ~ rank_lt (sf_rank (Prim2SF y)) (sf_rank (Prim2SF x))).
Proof.
  intros Hx Hy. rewrite leb_spec. unfold SFleb.
  destruct (SFcompare_rank _ _ Hx Hy) as (c & -> & _ & Hgt).
  rewrite <- Hgt. destruct c; split; congruence.
Qed.

Lemma rank_lt_asym (p q : Z * Z * Z) : rank_lt p q -> ~ rank_lt q p.
Proof. destruct p as [[? ?] ?], q as [[? ?] ?]. cbn. lia. Qed.

Lemma rank_lt_negtrans (p q r : Z * Z * Z) :
  ~ rank_lt p q -> ~ rank_lt q r -> ~ rank_lt p r.
Proof.
  destruct p as [[? ?] ?], q as [[? ?] ?], r as [[? ?] ?]. cbn. lia.
Qed.

Lemma ltb_false_rank (x y : float) :
  not_nan x -> not_nan y ->
  ((x <? y)%float = false
   <-> ~ rank_lt (sf_rank (Prim2SF x)) (sf_rank (Prim2SF y))).
Proof.
  intros Hx Hy. rewrite <- (ltb_rank x y Hx Hy).
  destruct (x <? y)%float; split; congruence.
Qed.

Lemma float_ltb_asym (x y : float) :
  not_nan x -> not_nan y -> (x <? y)%float = true -> (y <? x)%float = false.
Proof.
  intros Hx Hy H. apply ltb_false_rank; auto.
  apply rank_lt_asym. now apply ltb_rank.
Qed.

Lemma float_ltb_negtrans (x y z : float) :
  not_nan x -> not_nan y -> not_nan z ->
  (x <? y)%float = false -> (y <? z)%float = false -> (x <? z)%float = false.
Proof.
  intros Hx Hy Hz H1 H2. apply ltb_false_rank; auto.
  apply ltb_false_rank in H1, H2; auto.
  eapply rank_lt_negtrans; eauto.
Qed.

Lemma float_leb_of_not_ltb (x y : float) :
  not_nan x -> not_nan y -> (y <? x)%float = false -> (x <=? y)%float = true.
Proof.
  intros Hx Hy H. apply leb_rank; auto. now apply ltb_false_rank in H.
Qed.

Lemma float_leb_refl (x : float) : not_nan x -> (x <=? x)%float = true.
Proof.
  intros Hx. apply leb_rank; auto. intros H. exact (rank_lt_asym _ _ H H).
Qed.

End FloatOrder.

(** ** The luminance of a valid sample is a number *)

Section LuminanceIsNumber.

Lemma iter_pos_invariant {A : Type} (P : A -> Prop) (f : A -> A) :
  (forall x, P x -> P (f x)) ->
  forall (n : positive) (x : A), P x -> P (iter_pos f n x).
Proof.
  intros Hf. induction n as [n IH|n IH|]; intros x Hx; cbn [iter_pos]; auto.
Qed.

Lemma shr_1_nonneg (mrs : shr_record) :
  0 <= shr_m mrs -> 0 <= shr_m (shr_1 mrs).
Proof.
  destruct mrs as [m r s]. cbn [shr_m]. intros Hm.
  destruct m as [|[p|p|]|p]; cbn; lia.
Qed.

Lemma shr_fexp_nonneg (prec emax m e : Z) (l : location) :
  0 <= m -> 0 <= shr_m (fst (shr_fexp prec emax m e l)).
Proof.
  intros Hm. unfold shr_fexp, shr.
  assert (H0 : 0 <= shr_m (shr_record_of_loc m l))
    by (destruct l as [|[]]; exact Hm).
  destruct (_ - e) as [|p|p]; cbn [fst]; try exact H0.
  now apply iter_pos_invariant; [apply shr_1_nonneg|].
Qed.

Lemma round_nearest_even_nonneg (m : Z) (l : location) :
  0 <= m -> 0 <= round_nearest_even m l.
Proof.
  intros Hm. destruct l as [|[]]; cbn [round_nearest_even]; try lia.
  destruct (Z.even m); lia.
Qed.

Lemma binary_round_aux_not_nan (prec emax : Z) (sx : bool) (mx ex : Z)
  (lx : location) :
  0 <= mx -> binary_round_aux prec emax sx mx ex lx <> S754_nan.
Proof.
  intros Hm. unfold binary_round_aux.
  pose proof (shr_fexp_nonneg prec emax mx ex lx Hm) as H1.
  destruct (shr_fexp prec emax mx ex lx) as [mrs' e']. cbn [fst] in H1.
  pose proof (shr_fexp_nonneg prec emax _ e' loc_Exact
                (round_nearest_even_nonneg _ (loc_of_shr_record mrs') H1)) as H2.
  destruct (shr_fexp prec emax _ e' loc_Exact) as [mrs'' e'']. cbn [fst] in H2.
  destruct (shr_m mrs'') as [|p|p]; try discriminate; try lia.
  destruct (e'' <=? emax - prec); discriminate.
Qed.

Lemma binary_normalize_not_nan (prec emax m e : Z) (szero : bool) :
  binary_normalize prec emax m e szero <> S754_nan.
Proof.
  destruct m as [|p|p]; cbn [binary_normalize]; try discriminate;
    unfold binary_round; destruct (shl_align _ _ _) as [mz ez];
    apply binary_round_aux_not_nan; lia.
Qed.

Lemma SFadd_not_nan (prec emax : Z) (x y : spec_float) :
  x <> S754_nan -> sf_finite y = true -> SFadd prec emax x y <> S754_nan.
Proof.
  intros Hx Hy.
  destruct x as [sx|sx| |sx mx ex]; try congruence;
    destruct y as [sy|sy| |sy my ey]; try discriminate;
    cbn [SFadd]; try discriminate.
  - destruct sx, sy; discriminate.
  - apply binary_normalize_not_nan.
Qed.

Lemma calculate_luminance_terms (r g b : Z) :
  calculate_luminance (r, g, b)
  = (luminance_term 0.2126 r + luminance_term 0.7152 g
     + luminance_term 0.0722 b)%float.
Proof. reflexivity. Qed.

Lemma luminance_term_finite (n : Z) :
  0 <= n <= 255 ->
  sf_finite (Prim2SF (luminance_term 0.2126 n)) = true
  /\ sf_finite (Prim2SF (luminance_term 0.7152 n)) = true
  /\ sf_finite (Prim2SF (luminance_term 0.0722 n)) = true.
Proof.
  intros Hn.
  assert (H : sf_finite (Prim2SF (luminance_term 0.2126 n))
              && sf_finite (Prim2SF (luminance_term 0.7152 n))
              && sf_finite (Prim2SF (luminance_term 0.0722 n)) = true).
  { revert n Hn. apply bytes_forall. vm_compute. reflexivity. }
  apply andb_prop in H as [H H3]. apply andb_prop in H as [H1 H2]. auto.
Qed.

Lemma sf_finite_not_nan (x : spec_float) :
  sf_finite x = true -> x <> S754_nan.
Proof. destruct x; discriminate || congruence. Qed.

Lemma calculate_luminance_not_nan (c : rgb) :
  valid_rgb c -> not_nan (calculate_luminance c).
Proof.
  destruct c as [[r g] b]. intros (Hr & Hg & Hb).
  destruct (luminance_term_finite r Hr) as (Fr & _ & _).
  destruct (luminance_term_finite g Hg) as (_ & Fg & _).
  destruct (luminance_term_finite b Hb) as (_ & _ & Fb).
  rewrite calculate_luminance_terms. unfold not_nan.
  rewrite add_spec. apply SFadd_not_nan; [|exact Fb].
  rewrite add_spec. apply SFadd_not_nan; [|exact Fg].
  now apply sf_finite_not_nan.
Qed.

End LuminanceIsNumber.

(** ** The roles [classify_colors] assigns *)

Lemma sorted_weaken_in {A : Type} (R S : A -> A -> Prop) (l : list A) :
  (forall x y, In x l -> In y l -> R x y -> S x y) ->
  StronglySorted R l -> StronglySorted S l.
Proof.
  intros HRS H. induction H as [|x l H IH Hx].
  - constructor.
  - constructor.
    + apply IH. intros y z Hy Hz. apply HRS; now right.
    + rewrite Forall_forall in *. intros y Hy.
      apply HRS; [now left | now right | now apply Hx].
Qed.

Lemma neutral_colors_sorted (cs : list rgb) :
  Forall valid_rgb cs ->
  StronglySorted
    (fun x y => (calculate_luminance x <=? calculate_luminance y)%float = true)
    (neutral_colors cs).
Proof.
  intros Hcs. rewrite Forall_forall in Hcs.
  assert (Hnum : forall c, In c (neutral_colors cs) ->
                           not_nan (calculate_luminance c)).
  { intros c Hc. apply calculate_luminance_not_nan, Hcs.
    now apply neutral_colors_in in Hc. }
  eapply sorted_weaken_in;
    [| apply (sort_by_sorted calculate_luminance PrimFloat.ltb not_nan)].
  - intros x y Hx Hy H. unfold before in H.
    apply float_leb_of_not_ltb; auto.
  - apply float_ltb_asym.
  - apply float_ltb_negtrans.
  - apply Forall_forall. intros c Hc.
    apply calculate_luminance_not_nan, Hcs.
    now apply filter_In in Hc.
Qed.

Lemma classify_colors_rules (cs : list rgb) :
  cs <> [] ->
  classify_colors cs
  = {| primary := rgb_to_hex (rule_primary (vibrant_colors cs) cs);
       secondary :=
         rgb_to_hex
           (rule_secondary (vibrant_colors cs) (neutral_colors cs) cs);
       accent := rgb_to_hex (rule_accent (vibrant_colors cs) cs);
       neutrals := map rgb_to_hex (firstn 3 (neutral_colors cs));
       all_colors := map rgb_to_hex cs |}.
Proof.
  destruct cs as [|first rest]; [congruence|]. intros _.
  unfold classify_colors. cbv zeta.
  generalize (vibrant_colors (first :: rest)) as vibrant.
  generalize (neutral_colors (first :: rest)) as neutral.
  intros neutral vibrant.
  destruct vibrant as [|v1 [|v2 [|v3 vs]]], neutral as [|n ns], rest as [|c2 cs];
    reflexivity.
Qed.

(** C3. For a non-empty sequence of valid samples the roles follow the
    rules on the two sorted lists: the vibrant samples in descending
    order of saturation, the neutral samples in ascending order of
    luminance. The first vibrant sample is a most saturated one and the
    first neutral sample one of lowest luminance. *)
Theorem classify_colors_roles (cs : list rgb) :
  cs <> [] -> Forall valid_rgb cs ->
  let vibrant := vibrant_colors cs in
  let neutral := neutral_colors cs in
  (Permutation vibrant (filter (fun c => negb (is_neutral c)) cs)
   /\ StronglySorted (fun x y => saturation y <= saturation x) vibrant)
  /\ (Permutation neutral (filter is_neutral cs)
      /\ StronglySorted
           (fun x y =>
              (calculate_luminance x <=? calculate_luminance y)%float = true)
           neutral)
  /\ primary (classify_colors cs) = rgb_to_hex (rule_primary vibrant cs)
  /\ secondary (classify_colors cs)
     = rgb_to_hex (rule_secondary vibrant neutral cs)
  /\ accent (classify_colors cs) = rgb_to_hex (rule_accent vibrant cs)
  /\ (forall v rest, vibrant = v :: rest ->
        forall w, In w cs -> is_neutral w = false ->
                  saturation w <= saturation v)
  /\ (forall n rest, neutral = n :: rest ->
        forall m, In m cs -> is_neutral m = true ->
                  (calculate_luminance n <=? calculate_luminance m)%float = true).
Proof.
  intros Hne Hcs. cbv zeta.
  pose proof (vibrant_colors_sorted cs) as Hvs.
  pose proof (neutral_colors_sorted cs Hcs) as Hns.
  rewrite (classify_colors_rules cs Hne). cbn [primary secondary accent].
  repeat match goal with |- _ /\ _ => split end;
    auto using vibrant_colors_perm, neutral_colors_perm.
  - intros v rest E w Hw Nw.
    assert (Hin : In w (vibrant_colors cs)) by now apply vibrant_colors_in.
    rewrite E in Hin, Hvs. destruct Hin as [<-|Hin]; [lia|].
    now apply (sorted_head _ _ _ Hvs).
  - intros n rest E m Hm Nm.
    assert (Hin : In m (neutral_colors cs)) by now apply neutral_colors_in.
    rewrite E in Hin, Hns. destruct Hin as [<-|Hin].
    + apply float_leb_refl, calculate_luminance_not_nan.
      rewrite Forall_forall in Hcs. now apply Hcs.
    + now apply (sorted_head _ _ _ Hns).
Qed.

Lemma classify_colors_roles_witness :
  primary (classify_colors mixed_samples) = rgb_to_hex (190, 100, 100)
  /\ secondary (classify_colors mixed_samples) = rgb_to_hex (160, 100, 100)
  /\ accent (classify_colors mixed_samples) = rgb_to_hex (140, 100, 100).
Proof.
  assert (Hne : mixed_samples <> []) by discriminate.
  assert (Hcs : Forall valid_rgb mixed_samples)
    by (repeat constructor; cbv [valid_rgb]; lia).
  pose proof (classify_colors_roles mixed_samples Hne Hcs) as H.
  cbv zeta in H. destruct H as (_ & _ & Hp & Hs & Ha & _).
  rewrite Hp, Hs, Ha. repeat split; reflexivity.
Defined.

(** A single sample takes the three roles. *)
Example single_sample_collapse :
  classify_colors [(10, 10, 10)]
  = {| primary := "#0A0A0A"; secondary := "#0A0A0A"; accent := "#0A0A0A";
       neutrals := ["#0A0A0A"]; all_colors := ["#0A0A0A"] |}.
Proof. reflexivity. Qed.

(** ** More on the conversions *)

Lemma hex_pairs_forall (p : ascii -> ascii -> bool) :
  forallb (fun a => forallb (p a) hex_chars) hex_chars = true ->
  forall a b, is_hex_digit a = true -> is_hex_digit b = true -> p a b = true.
Proof.
  intros Hall a b Ha Hb. rewrite forallb_forall in Hall.
  assert (Hin : forall c, is_hex_digit c = true -> In c hex_chars).
  { intros c Hc. apply filter_In. split; [apply in_all_ascii | exact Hc]. }
  specialize (Hall a (Hin a Ha)). rewrite forallb_forall in Hall.
  apply Hall, Hin, Hb.
Qed.

Lemma all_chars_app (p : ascii -> bool) (s t : string) :
  all_chars p (s ++ t) = all_chars p s && all_chars p t.
Proof.
  induction s as [|c s IH]; cbn [append all_chars]; [reflexivity|].
  now rewrite IH, andb_assoc.
Qed.

Lemma string_length_app (s t : string) :
  String.length (s ++ t) = (String.length s + String.length t)%nat.
Proof. induction s as [|c s IH]; cbn; [reflexivity | now rewrite IH]. Qed.

Lemma rgb_to_hex_valid_canonical (c : rgb) :
  valid_rgb c -> canonical_hex (rgb_to_hex c) = true.
Proof.
  destruct c as [[r g] b]. intros (Hr & Hg & Hb).
  destruct (byte_hex_shape r Hr) as (a1 & a2 & Er & Ua1 & Ua2 & _).
  destruct (byte_hex_shape g Hg) as (b1 & b2 & Eg & Ub1 & Ub2 & _).
  destruct (byte_hex_shape b Hb) as (c1 & c2 & Eb & Uc1 & Uc2 & _).
  rewrite rgb_to_hex_unfold, Er, Eg, Eb.
  cbn [append canonical_hex all_chars String.length].
  now rewrite Ua1, Ua2, Ub1, Ub2, Uc1, Uc2.
Qed.

Lemma rgb_to_hex_valid_back (c : rgb) :
  valid_rgb c -> hex_to_rgb (rgb_to_hex c) = Ok c.
Proof.
  destruct c as [[r g] b]. intros (Hr & Hg & Hb).
  destruct (byte_hex_shape r Hr) as (a1 & a2 & Er & Ua1 & Ua2 & Vr).
  destruct (byte_hex_shape g Hg) as (b1 & b2 & Eg & Ub1 & Ub2 & Vg).
  destruct (byte_hex_shape b Hb) as (c1 & c2 & Eb & Uc1 & Uc2 & Vb).
  rewrite rgb_to_hex_unfold, Er, Eg, Eb. cbn [append].
  rewrite hex_to_rgb_hash.
  apply hex_to_rgb_digits; auto using upper_hex_is_hex.
Qed.

(** *** Channels outside [0,255] *)

Lemma ascii_to_digit_bound (ch : ascii) :
  match HexString.ascii_to_digit ch with
  | Some v => (v <= 15)%N
  | None => True
  end.
Proof.
  assert (H : forall c, match HexString.ascii_to_digit c with
                        | Some v => (v <=? 15)%N
                        | None => true
                        end = true)
    by (apply ascii_forall; vm_compute; reflexivity).
  specialize (H ch). destruct (HexString.ascii_to_digit ch); [|exact I].
  now apply N.leb_le.
Qed.

Lemma raw_to_N_step (ch : ascii) (acc : N) :
  (match HexString.ascii_to_digit ch with
   | Some v => v + 16 * acc
   | None => 0
   end <= 15 + 16 * acc)%N.
Proof.
  pose proof (ascii_to_digit_bound ch) as H.
  destruct (HexString.ascii_to_digit ch); lia.
Qed.

(** A number written with at most two digits is below 256. *)
Lemma hex_of_nonneg_short (n : Z) :
  0 <= n -> (String.length (PyStr.hex_of_nonneg n) <= 2)%nat -> n <= 255.
Proof.
  intros Hn Hlen. destruct n as [|p|p]; try lia.
  cbn [PyStr.hex_of_nonneg] in Hlen.
  pose proof (HexString.Raw.to_N_of_pos p "" 0%N) as Hv.
  change (HexString.Raw.to_N "" _) with (N.pos p) in Hv.
  destruct (HexString.Raw.of_pos p "") as [|a [|b [|? ?]]];
    cbn [String.length] in Hlen; try lia;
    cbn [HexString.Raw.to_N] in Hv.
  - lia.
  - pose proof (raw_to_N_step a 0). lia.
  - pose proof (raw_to_N_step a 0).
    pose proof (raw_to_N_step b
                  match HexString.ascii_to_digit a with
                  | Some v => (v + 16 * 0)%N
                  | None => 0%N
                  end).
    lia.
Qed.

Lemma hex_of_nonneg_nonempty (n : Z) :
  (1 <= String.length (PyStr.hex_of_nonneg n))%nat.
Proof.
  destruct n as [|p|p]; cbn; try lia.
  pose proof (HexString.Raw.to_N_of_pos p "" 0%N) as Hv.
  destruct (HexString.Raw.of_pos p ""); cbn in *; [discriminate | lia].
Qed.

Lemma zfill_length (w : nat) (s : string) :
  String.length (PyStr.zfill w s) = Nat.max w (String.length s).
Proof.
  unfold PyStr.zfill. rewrite string_length_app.
  assert (H : forall k, String.length (PyStr.zeros k) = k)
    by (induction k; cbn; congruence).
  rewrite H. lia.
Qed.

Lemma upper_length (s : string) :
  String.length (PyStr.upper s) = String.length s.
Proof. induction s as [|c s IH]; cbn; congruence. Qed.

(** What [rgb_to_hex] writes for one channel: at least two characters,
    exactly two uppercase digits only for a channel in [0,255]. *)
Lemma byte_hex_length (n : Z) : (2 <= String.length (byte_hex n))%nat.
Proof.
  unfold byte_hex, PyStr.format_02x. rewrite upper_length.
  pose proof (hex_of_nonneg_nonempty (- n)).
  destruct (n <? 0); cbn [String.length]; rewrite zfill_length; lia.
Qed.

Lemma byte_hex_two_digits (n : Z) :
  String.length (byte_hex n) = 2%nat ->
  all_chars is_upper_hex_digit (byte_hex n) = true ->
  0 <= n <= 255.
Proof.
  unfold byte_hex, PyStr.format_02x.
  destruct (n <? 0) eqn:Hneg.
  - intros _ H. cbn in H. discriminate.
  - apply Z.ltb_ge in Hneg. rewrite upper_length, zfill_length. intros Hlen _.
    split; [exact Hneg|]. apply hex_of_nonneg_short; lia.
Qed.

(** X1. [rgb_to_hex] writes ['#'] and six uppercase hexadecimal digits
    exactly for the samples with every channel in [0,255]: a negative
    channel brings a minus sign, a channel above 255 a third digit. *)
Theorem rgb_to_hex_canonical_iff (c : rgb) :
  canonical_hex (rgb_to_hex c) = true <-> valid_rgb c.
Proof.
  split; [|apply rgb_to_hex_valid_canonical].
  destruct c as [[r g] b]. rewrite rgb_to_hex_unfold.
  cbn [canonical_hex]. intros H. rewrite <- andb_assoc in H.
  apply andb_prop in H as [_ H]. apply andb_prop in H as [Hlen Hall].
  apply Nat.eqb_eq in Hlen. rewrite !string_length_app in Hlen.
  rewrite !all_chars_app in Hall.
  apply andb_prop in Hall as [Hr Hall]. apply andb_prop in Hall as [Hg Hb].
  pose proof (byte_hex_length r). pose proof (byte_hex_length g).
  pose proof (byte_hex_length b).
  cbn [valid_rgb]. repeat split; apply byte_hex_two_digits; auto; lia.
Qed.

(** X2. On samples with channels in [0,255] [rgb_to_hex] is injective:
    two different valid samples never get the same hex string. *)
Theorem rgb_to_hex_injective (c1 c2 : rgb) :
  valid_rgb c1 -> valid_rgb c2 -> c1 <> c2 -> rgb_to_hex c1 <> rgb_to_hex c2.
Proof.
  intros H1 H2 Hne E. apply Hne.
  pose proof (rgb_to_hex_valid_back c1 H1) as B1.
  pose proof (rgb_to_hex_valid_back c2 H2) as B2.
  rewrite E in B1. congruence.
Qed.

Lemma rgb_to_hex_injective_witness :
  rgb_to_hex (1, 2, 3) <> rgb_to_hex (1, 2, 4).
Proof.
  apply rgb_to_hex_injective; [cbv [valid_rgb]; lia | cbv [valid_rgb]; lia |].
  intros E. inversion E.
Defined.

(** ** More on [classify_colors] and [merge_palettes] *)

Lemma canonical_palette_of_invariant (p : ColorPalette) :
  palette_invariant p -> all_colors p <> [] ->
  Forall (fun h => canonical_hex h = true) (all_colors p) ->
  canonical_palette p.
Proof.
  intros [Hroles Hneutrals] Hne Hall. unfold canonical_palette, palette_strings.
  destruct (Hroles Hne) as (Hp & Hs & Ha).
  rewrite Forall_forall in Hall.
  repeat (apply Forall_cons; [now apply Hall|]).
  apply Forall_app. split; apply Forall_forall; intros h Hh; auto.
Qed.

Lemma classify_colors_all_canonical (cs : list rgb) :
  Forall valid_rgb cs ->
  all_colors (classify_colors cs) <> []
  /\ Forall (fun h => canonical_hex h = true) (all_colors (classify_colors cs)).
Proof.
  intros Hcs. destruct cs as [|c cs].
  - split; [discriminate | repeat constructor].
  - change (all_colors (classify_colors (c :: cs)))
      with (map rgb_to_hex (c :: cs)).
    split; [discriminate|].
    apply Forall_map. eapply Forall_impl; [|exact Hcs].
    intros x. apply rgb_to_hex_valid_canonical.
Qed.

(** X3. Every hex string of a palette that [classify_colors] returns for
    samples with channels in [0,255] is ['#'] followed by six uppercase
    hexadecimal digits. *)
Theorem classify_colors_canonical (cs : list rgb) :
  Forall valid_rgb cs -> canonical_palette (classify_colors cs).
Proof.
  intros Hcs. destruct (classify_colors_all_canonical cs Hcs) as [Hne Hall].
  apply canonical_palette_of_invariant; auto using classify_colors_invariant.
Qed.

Lemma classify_colors_canonical_witness :
  canonical_palette (classify_colors mixed_samples).
Proof.
  apply classify_colors_canonical.
  repeat constructor; cbv [valid_rgb]; lia.
Defined.

(** X4. [merge_palettes] keeps the shape of the strings: when every
    string of both palettes is ['#'] and six uppercase digits, so is every
    string of the merged palette, under every iteration order. *)
Theorem merge_palettes_canonical (order : SetOrder) (a b : ColorPalette) :
  canonical_palette a -> canonical_palette b ->
  canonical_palette (merge_palettes a b).
Proof.
  unfold canonical_palette, palette_strings. intros Ha Hb.
  apply Forall_cons_iff in Ha as (Hap & Ha).
  apply Forall_cons_iff in Ha as (_ & Ha).
  apply Forall_cons_iff in Ha as (Haa & Ha).
  apply Forall_app in Ha as (Han & Hac).
  apply Forall_cons_iff in Hb as (Hbp & Hb).
  apply Forall_cons_iff in Hb as (_ & Hb).
  apply Forall_cons_iff in Hb as (_ & Hb).
  apply Forall_app in Hb as (Hbn & Hbc).
  cbn [merge_palettes primary secondary accent neutrals all_colors].
  repeat (apply Forall_cons; [assumption|]).
  apply Forall_app. rewrite Forall_forall in Han, Hac, Hbn, Hbc.
  split; apply Forall_forall; intros h Hh; apply firstn_incl in Hh;
    apply (proj1 (list_set_In _ _)) in Hh; apply in_app_or in Hh as [Hh|Hh];
    auto.
Qed.

Lemma merge_palettes_canonical_witness :
  canonical_palette (@merge_palettes first_seen red_logo blue_site).
Proof.
  apply merge_palettes_canonical; repeat constructor.
Defined.

(** *** The two lists share out the input *)

Lemma filter_partition {A : Type} (f : A -> bool) (l : list A) :
  Permutation (filter (fun x => negb (f x)) l ++ filter f l) l.
Proof.
  induction l as [|x l IH]; cbn [filter]; [reflexivity|].
  destruct (f x); cbn [negb app].
  - rewrite <- Permutation_middle. now apply perm_skip.
  - now apply perm_skip.
Qed.

Lemma vibrant_neutral_partition (cs : list rgb) :
  Permutation (vibrant_colors cs ++ neutral_colors cs) cs.
Proof.
  rewrite vibrant_colors_perm, neutral_colors_perm. apply filter_partition.
Qed.

(** X5. Every sample lands in exactly one of the two sorted lists, so
    the alternative [colors_rgb[1]] for the secondary colour is never
    taken: with fewer than two vibrant samples and no neutral one the
    input is a single sample, and the secondary colour is then the
    primary one. *)
Theorem secondary_without_second_sample (cs : list rgb) :
  cs <> [] ->
  Permutation (vibrant_colors cs ++ neutral_colors cs) cs
  /\ ((List.length (vibrant_colors cs) <= 1)%nat ->
      neutral_colors cs = [] -> (List.length cs <= 1)%nat)
  /\ secondary (classify_colors cs)
     = rgb_to_hex
         match vibrant_colors cs, neutral_colors cs with
         | _ :: v2 :: _, _ => v2
         | _, n :: _ => n
         | _, [] => rule_primary (vibrant_colors cs) cs
         end.
Proof.
  intros Hne. pose proof (vibrant_neutral_partition cs) as Hperm.
  split; [exact Hperm|].
  assert (Hlen : (List.length (vibrant_colors cs)
                  + List.length (neutral_colors cs))%nat = List.length cs)
    by (rewrite <- List.length_app; apply Permutation_length, Hperm).
  split.
  - intros Hv Hn. rewrite Hn in Hlen. cbn [List.length] in Hlen. lia.
  - rewrite (classify_colors_rules cs Hne). cbn [secondary].
    unfold rule_secondary.
    destruct (vibrant_colors cs) as [|v1 [|v2 vs]],
             (neutral_colors cs) as [|n ns], cs as [|c1 [|c2 cs']];
      try reflexivity; cbn [List.length] in Hlen; try lia; congruence.
Qed.

Lemma secondary_without_second_sample_witness :
  secondary (classify_colors [(255, 0, 0)]) = rgb_to_hex (255, 0, 0).
Proof.
  assert (Hne : [(255, 0, 0)] <> ([] : list rgb)) by discriminate.
  destruct (secondary_without_second_sample _ Hne) as (_ & _ & H).
  rewrite H. reflexivity.
Defined.

(** X6. A single sample takes the three roles; it is the only entry of
    [all_colors], and of [neutrals] when it is neutral. *)
Theorem classify_colors_single (c : rgb) :
  classify_colors [c]
  = {| primary := rgb_to_hex c;
       secondary := rgb_to_hex c;
       accent := rgb_to_hex c;
       neutrals := if is_neutral c then [rgb_to_hex c] else [];
       all_colors := [rgb_to_hex c] |}.
Proof.
  unfold classify_colors, vibrant_colors, neutral_colors, py_sort.
  cbn [filter]. destruct (is_neutral c); reflexivity.
Qed.

(** *** The neutrals of a palette *)

Lemma sorted_app_order {A : Type} (R : A -> A -> Prop) (l1 l2 : list A) :
  StronglySorted R (l1 ++ l2) ->
  StronglySorted R l1
  /\ forall x y, In x l1 -> In y l2 -> R x y.
Proof.
  induction l1 as [|a l1 IH]; cbn [app]; intros H.
  - split; [constructor | intros x y []].
  - apply StronglySorted_inv in H as [Hs Ha].
    destruct (IH Hs) as [Hs1 Hord]. split.
    + constructor; [exact Hs1|].
      apply Forall_app in Ha as [Ha _]. exact Ha.
    + intros x y [<-|Hx] Hy; [|now apply Hord].
      rewrite Forall_forall in Ha. apply Ha, in_or_app. now right.
Qed.

(** X7. For samples with channels in [0,255] the [neutrals] of the
    palette are the darkest neutral samples, at most three, darkest
    first: they are the hex strings of a list [kept] that, together with
    the neutral samples left out, makes up the neutral samples of the
    input, is in ascending order of luminance, and holds no sample of a
    higher luminance than one left out. *)
Theorem classify_colors_neutrals (cs : list rgb) :
  cs <> [] -> Forall valid_rgb cs ->
  exists kept dropped : list rgb,
    neutrals (classify_colors cs) = map rgb_to_hex kept
    /\ Permutation (kept ++ dropped) (filter is_neutral cs)
    /\ List.length kept = Nat.min 3 (List.length (filter is_neutral cs))
    /\ StronglySorted
         (fun x y =>
            (calculate_luminance x <=? calculate_luminance y)%float = true)
         kept
    /\ forall k d, In k kept -> In d dropped ->
         (calculate_luminance k <=? calculate_luminance d)%float = true.
Proof.
  intros Hne Hcs.
  exists (firstn 3 (neutral_colors cs)), (skipn 3 (neutral_colors cs)).
  pose proof (neutral_colors_sorted cs Hcs) as Hs.
  rewrite <- (firstn_skipn 3 (neutral_colors cs)) in Hs.
  apply sorted_app_order in Hs as [Hs Hord].
  rewrite (classify_colors_rules cs Hne). cbn [neutrals].
  split; [reflexivity|]. split; [|split; [|split; [exact Hs | exact Hord]]].
  - rewrite firstn_skipn. apply neutral_colors_perm.
  - rewrite length_firstn.
    now rewrite (Permutation_length (neutral_colors_perm cs)).
Qed.

Lemma classify_colors_neutrals_witness :
  exists kept dropped : list rgb,
    neutrals (classify_colors mixed_samples) = map rgb_to_hex kept
    /\ Permutation (kept ++ dropped) (filter is_neutral mixed_samples)
    /\ List.length kept = Nat.min 3 (List.length (filter is_neutral mixed_samples))
    /\ StronglySorted
         (fun x y =>
            (calculate_luminance x <=? calculate_luminance y)%float = true)
         kept
    /\ forall k d, In k kept -> In d dropped ->
         (calculate_luminance k <=? calculate_luminance d)%float = true.
Proof.
  apply classify_colors_neutrals; [discriminate|].
  repeat constructor; cbv [valid_rgb]; lia.
Defined.

(** *** Decoding the roles *)

Lemma vibrant_saturation (c : rgb) :
  is_neutral c = false -> 30 <= saturation c.
Proof.
  destruct c as [[r g] b]. unfold is_neutral, saturation.
  intros H. now apply Z.ltb_ge in H.
Qed.

(** X8. With three or more vibrant samples among samples with channels in
    [0,255], the three roles decode to three samples of the input in
    descending order of saturation, each of saturation 30 or more. *)
Theorem classify_colors_roles_ranked (cs : list rgb) :
  Forall valid_rgb cs ->
  (3 <= List.length (filter (fun c => negb (is_neutral c)) cs))%nat ->
  exists c1 c2 c3 : rgb,
    hex_to_rgb (primary (classify_colors cs)) = Ok c1
    /\ hex_to_rgb (secondary (classify_colors cs)) = Ok c2
    /\ hex_to_rgb (accent (classify_colors cs)) = Ok c3
    /\ In c1 cs /\ In c2 cs /\ In c3 cs
    /\ saturation c1 >= saturation c2
    /\ saturation c2 >= saturation c3
    /\ saturation c3 >= 30.
Proof.
  intros Hcs Hlen.
  assert (Hne : cs <> []) by (destruct cs; [cbn in Hlen; lia | discriminate]).
  rewrite <- (Permutation_length (vibrant_colors_perm cs)) in Hlen.
  pose proof (vibrant_colors_sorted cs) as Hs.
  assert (Hin : forall c, In c (vibrant_colors cs) ->
                          In c cs /\ is_neutral c = false)
    by (intros c; apply vibrant_colors_in).
  rewrite (classify_colors_rules cs Hne). cbn [primary secondary accent].
  unfold rule_primary, rule_secondary, rule_accent.
  destruct (vibrant_colors cs) as [|v1 [|v2 [|v3 vs]]];
    cbn [List.length] in Hlen; try lia.
  destruct (Hin v1) as [I1 _]; [now left|].
  destruct (Hin v2) as [I2 _]; [right; now left|].
  destruct (Hin v3) as [I3 N3]; [right; right; now left|].
  rewrite Forall_forall in Hcs.
  exists v1, v2, v3.
  rewrite !rgb_to_hex_valid_back by auto.
  repeat split; auto.
  - apply Z.le_ge. apply (sorted_head _ _ _ Hs). now left.
  - apply StronglySorted_inv in Hs as [Hs _].
    apply Z.le_ge. apply (sorted_head _ _ _ Hs). now left.
  - apply Z.le_ge. now apply vibrant_saturation.
Qed.

Lemma classify_colors_roles_ranked_witness :
  exists c1 c2 c3 : rgb,
    hex_to_rgb (primary (classify_colors mixed_samples)) = Ok c1
    /\ hex_to_rgb (secondary (classify_colors mixed_samples)) = Ok c2
    /\ hex_to_rgb (accent (classify_colors mixed_samples)) = Ok c3
    /\ In c1 mixed_samples /\ In c2 mixed_samples /\ In c3 mixed_samples
    /\ saturation c1 >= saturation c2
    /\ saturation c2 >= saturation c3
    /\ saturation c3 >= 30.
Proof.
  apply classify_colors_roles_ranked.
  - repeat constructor; cbv [valid_rgb]; lia.
  - vm_compute. lia.
Defined.

(** *** Merging what [classify_colors] returns *)

Lemma nodup_length_le (l : list string) :
  (List.length (nodup string_dec l) <= List.length l)%nat.
Proof.
  apply NoDup_incl_length; [apply NoDup_nodup|].
  intros x Hx. now apply nodup_In in Hx.
Qed.

Lemma merge_palettes_uncut (order : SetOrder) (a b : ColorPalette) :
  palette_invariant a -> palette_invariant b ->
  all_colors a <> [] -> all_colors b <> [] ->
  (List.length (all_colors a) + List.length (all_colors b) <= 12)%nat ->
  palette_invariant (merge_palettes a b)
  /\ incl (all_colors a ++ all_colors b) (all_colors (merge_palettes a b)).
Proof.
  intros [Ha Na] [Hb Nb] Hane Hbne Hlen.
  assert (Hall : incl (all_colors a ++ all_colors b)
                   (all_colors (merge_palettes a b))).
  { intros x Hx. cbn [merge_palettes all_colors]. rewrite firstn_all2.
    - exact (proj2 (list_set_In _ _) Hx).
    - rewrite list_set_length.
      pose proof (nodup_length_le (all_colors a ++ all_colors b)) as H.
      rewrite List.length_app in H. lia. }
  split; [|exact Hall].
  destruct (Ha Hane) as (Ha1 & _ & Ha3). destruct (Hb Hbne) as (Hb1 & _).
  split.
  - intros _. cbn [merge_palettes primary secondary accent].
    repeat split; apply Hall, in_or_app; auto.
  - intros x Hx. cbn [merge_palettes neutrals] in Hx.
    apply firstn_incl in Hx. apply (proj1 (list_set_In _ _)) in Hx.
    apply Hall, in_or_app. apply in_app_or in Hx as [Hx|Hx]; auto.
Qed.

Lemma classify_colors_all_colors (cs : list rgb) :
  all_colors (classify_colors cs) <> []
  /\ ((List.length cs <= 6)%nat ->
      (List.length (all_colors (classify_colors cs)) <= 6)%nat).
Proof.
  destruct cs as [|c cs].
  - split; [discriminate | intros _; cbn; lia].
  - change (all_colors (classify_colors (c :: cs)))
      with (map rgb_to_hex (c :: cs)).
    split; [discriminate | now rewrite length_map].
Qed.

(** X9. Merging the palettes of two sample sequences of at most six
    samples each, as the brand analysis asks for, cuts nothing: the
    merged palette satisfies the palette invariant and keeps every colour
    of both, under every iteration order of the set. *)
Theorem merge_classified_palettes (order : SetOrder) (l1 l2 : list rgb) :
  (List.length l1 <= 6)%nat -> (List.length l2 <= 6)%nat ->
  let a := classify_colors l1 in
  let b := classify_colors l2 in
  palette_invariant (merge_palettes a b)
  /\ incl (all_colors a ++ all_colors b) (all_colors (merge_palettes a b)).
Proof.
  intros H1 H2. cbv zeta.
  destruct (classify_colors_all_colors l1) as [Ne1 L1].
  destruct (classify_colors_all_colors l2) as [Ne2 L2].
  specialize (L1 H1). specialize (L2 H2).
  apply merge_palettes_uncut; auto using classify_colors_invariant. lia.
Qed.

Lemma merge_classified_palettes_witness :
  palette_invariant
    (@merge_palettes last_seen (classify_colors mixed_samples)
       (classify_colors []))
  /\ incl
       (all_colors (classify_colors mixed_samples)
        ++ all_colors (classify_colors []))
       (all_colors
          (@merge_palettes last_seen (classify_colors mixed_samples)
             (classify_colors []))).
Proof.
  apply (merge_classified_palettes last_seen mixed_samples []); cbn; lia.
Defined.

(** X10. The colours of the brand. When the logo and the site each gave
    at most six samples with channels in [0,255] (or gave nothing), the
    palette chosen for the brand satisfies the palette invariant and all
    its strings are ['#'] and six uppercase digits; with a logo palette
    the primary and the accent are the logo's. *)
Theorem brand_colors_sound (order : SetOrder)
  (logo_samples site_samples : option (list rgb)) :
  (forall l, logo_samples = Some l ->
             (List.length l <= 6)%nat /\ Forall valid_rgb l) ->
  (forall l, site_samples = Some l ->
             (List.length l <= 6)%nat /\ Forall valid_rgb l) ->
  let logo := option_map classify_colors logo_samples in
  let site := option_map classify_colors site_samples in
  palette_invariant (brand_colors logo site)
  /\ canonical_palette (brand_colors logo site)
  /\ (forall a, logo = Some a ->
        primary (brand_colors logo site) = primary a
        /\ accent (brand_colors logo site) = accent a).
Proof.
  intros Hl Hs. cbv zeta.
  destruct logo_samples as [l1|], site_samples as [l2|];
    cbn [option_map brand_colors].
  - destruct (Hl l1 eq_refl) as [L1 V1]. destruct (Hs l2 eq_refl) as [L2 V2].
    destruct (classify_colors_all_canonical l1 V1) as [Ne1 C1].
    destruct (classify_colors_all_canonical l2 V2) as [Ne2 C2].
    destruct (merge_palettes_uncut order (classify_colors l1)
                (classify_colors l2)) as [Hinv Hall];
      auto using classify_colors_invariant.
    { pose proof (proj2 (classify_colors_all_colors l1) L1).
      pose proof (proj2 (classify_colors_all_colors l2) L2). lia. }
    split; [exact Hinv|]. split.
    + apply canonical_palette_of_invariant; [exact Hinv | |].
      * intros E. destruct (all_colors (classify_colors l1)) as [|x xs];
          [now apply Ne1|].
        specialize (Hall x (in_or_app _ _ _ (or_introl (in_eq x xs)))).
        rewrite E in Hall. destruct Hall.
      * apply Forall_forall. intros h Hh.
        cbn [merge_palettes all_colors] in Hh. apply firstn_incl in Hh.
        apply (proj1 (list_set_In _ _)) in Hh.
        rewrite Forall_forall in C1, C2.
        apply in_app_or in Hh as [Hh|Hh]; auto.
    + intros a [= <-]. split; reflexivity.
  - destruct (Hl l1 eq_refl) as [L1 V1].
    destruct (classify_colors_all_canonical l1 V1) as [Ne1 C1].
    split; [apply classify_colors_invariant|].
    split; [|intros a [= <-]; split; reflexivity].
    apply canonical_palette_of_invariant; auto using classify_colors_invariant.
  - destruct (Hs l2 eq_refl) as [L2 V2].
    destruct (classify_colors_all_canonical l2 V2) as [Ne2 C2].
    split; [apply classify_colors_invariant|].
    split; [|intros a [=]].
    apply canonical_palette_of_invariant; auto using classify_colors_invariant.
  - split; [|split; [repeat constructor | intros a [=]]].
    split; [intros _; cbn; auto 10 | intros x Hx; cbn in *; tauto].
Qed.

Lemma brand_colors_sound_witness :
  palette_invariant
    (@brand_colors first_seen
       (Some (classify_colors mixed_samples)) (Some (classify_colors [])))
  /\ canonical_palette
       (@brand_colors first_seen
          (Some (classify_colors mixed_samples)) (Some (classify_colors []))).
Proof.
  assert (H1 : forall l, Some mixed_samples = Some l ->
                         (List.length l <= 6)%nat /\ Forall valid_rgb l).
  { intros l [= <-]. split; [cbn; lia|].
    repeat constructor; cbv [valid_rgb]; lia. }
  assert (H2 : forall l : list rgb, Some [] = Some l ->
                         (List.length l <= 6)%nat /\ Forall valid_rgb l).
  { intros l [= <-]. split; [cbn; lia | constructor]. }
  destruct (brand_colors_sound first_seen (Some mixed_samples) (Some []) H1 H2)
    as (Hinv & Hcan & _).
  split; [exact Hinv | exact Hcan].
Defined.

(** *** What [hex_to_rgb] reads *)

Lemma hex_to_rgb_hashes (k : nat) (s : string) :
  hex_to_rgb (hashes k ++ s) = hex_to_rgb s.
Proof.
  induction k as [|k IH]; cbn [hashes append]; [reflexivity|].
  now rewrite hex_to_rgb_hash.
Qed.

(** X11. [hex_to_rgb] reads the first six characters after the leading
    ['#']s and nothing else: with six hexadecimal digits there, any number
    of ['#'] in front and any characters behind leave the result the
    same, and the call does not fail. *)
Theorem hex_to_rgb_prefix (k : nat) (t rest : string) :
  six_hex_digits t = true ->
  exists c,
    hex_triple t = Some c
    /\ hex_to_rgb (hashes k ++ t ++ rest) = Ok c
    /\ hex_to_rgb t = Ok c.
Proof.
  intros H. rewrite hex_to_rgb_hashes.
  apply six_chars in H
    as (a1 & a2 & b1 & b2 & c1 & c2 & -> & Ha1 & Ha2 & Hb1 & Hb2 & Hc1 & Hc2).
  destruct (hex_pair_defined a1 a2 Ha1 Ha2) as (r & Hr & _).
  destruct (hex_pair_defined b1 b2 Hb1 Hb2) as (g & Hg & _).
  destruct (hex_pair_defined c1 c2 Hc1 Hc2) as (b & Hb & _).
  exists (r, g, b). cbn [hex_triple append]. rewrite Hr, Hg, Hb.
  split; [reflexivity|]. split; now apply hex_to_rgb_digits.
Qed.

Lemma hex_to_rgb_prefix_witness :
  exists c,
    hex_triple "c0ffee" = Some c
    /\ hex_to_rgb (hashes 2 ++ "c0ffee" ++ "; color") = Ok c
    /\ hex_to_rgb "c0ffee" = Ok c.
Proof. apply hex_to_rgb_prefix. reflexivity. Defined.

Lemma upper_pair (a b : ascii) (v : Z) :
  is_hex_digit a = true -> is_hex_digit b = true ->
  hex_pair_value a b = Some v ->
  hex_pair_value (PyStr.upper_char a) (PyStr.upper_char b) = Some v
  /\ byte_hex v
     = String (PyStr.upper_char a) (String (PyStr.upper_char b) EmptyString)
  /\ is_hex_digit (PyStr.upper_char a) = true
  /\ 0 <= v <= 255.
Proof.
  intros Ha Hb Hv.
  assert (H : forall a b,
             is_hex_digit a = true -> is_hex_digit b = true ->
             match hex_pair_value a b with
             | Some v =>
                 match hex_pair_value (PyStr.upper_char a) (PyStr.upper_char b) with
                 | Some w => v =? w
                 | None => false
                 end
                 && String.eqb (byte_hex v)
                      (String (PyStr.upper_char a)
                         (String (PyStr.upper_char b) EmptyString))
                 && is_hex_digit (PyStr.upper_char a)
                 && (0 <=? v) && (v <=? 255)
             | None => false
             end = true)
    by (apply hex_pairs_forall; vm_compute; reflexivity).
  specialize (H a b Ha Hb). rewrite Hv in H.
  apply andb_prop in H as [H H5]. apply andb_prop in H as [H H4].
  apply andb_prop in H as [H H3]. apply andb_prop in H as [H1 H2].
  destruct (hex_pair_value (PyStr.upper_char a) (PyStr.upper_char b));
    [|discriminate].
  apply Z.eqb_eq in H1. subst. apply String.eqb_eq in H2.
  repeat split; auto; lia.
Qed.

(** X12. [hex_to_rgb] does not tell the case of the digits, and
    [rgb_to_hex] brings them to uppercase: six hexadecimal digits of any
    case convert to a triple with channels in [0,255], their uppercase
    form converts to the same triple, and the triple converts back to
    ['#'] and the uppercase digits. *)
Theorem hex_case_normalised (t : string) :
  six_hex_digits t = true ->
  exists c,
    hex_to_rgb t = Ok c
    /\ hex_to_rgb (String "#" t) = Ok c
    /\ hex_to_rgb (PyStr.upper t) = Ok c
    /\ valid_rgb c
    /\ rgb_to_hex c = String "#" (PyStr.upper t).
Proof.
  intros H. apply six_chars in H
    as (a1 & a2 & b1 & b2 & c1 & c2 & -> & Ha1 & Ha2 & Hb1 & Hb2 & Hc1 & Hc2).
  destruct (hex_pair_defined a1 a2 Ha1 Ha2) as (r & Hr & _).
  destruct (hex_pair_defined b1 b2 Hb1 Hb2) as (g & Hg & _).
  destruct (hex_pair_defined c1 c2 Hc1 Hc2) as (b & Hb & _).
  destruct (upper_pair a1 a2 r Ha1 Ha2 Hr) as (Ur & Br & Ua & Rr).
  destruct (upper_pair b1 b2 g Hb1 Hb2 Hg) as (Ug & Bg & _ & Rg).
  destruct (upper_pair c1 c2 b Hc1 Hc2 Hb) as (Ub & Bb & _ & Rb).
  exists (r, g, b).
  assert (Ht : hex_to_rgb
                 (String a1 (String a2 (String b1 (String b2
                    (String c1 (String c2 EmptyString)))))) = Ok (r, g, b))
    by now apply hex_to_rgb_digits.
  split; [exact Ht|]. split; [rewrite hex_to_rgb_hash; exact Ht|].
  split; [cbn [PyStr.upper]; now apply hex_to_rgb_digits|].
  split; [cbn [valid_rgb]; auto|].
  rewrite rgb_to_hex_unfold, Br, Bg, Bb. reflexivity.
Qed.

Lemma hex_case_normalised_witness :
  exists c,
    hex_to_rgb "c0ffee" = Ok c
    /\ hex_to_rgb "#c0ffee" = Ok c
    /\ hex_to_rgb (PyStr.upper "c0ffee") = Ok c
    /\ valid_rgb c
    /\ rgb_to_hex c = String "#" (PyStr.upper "c0ffee").
Proof. apply hex_case_normalised. reflexivity. Defined.

(** *** The luminance of greys *)

Lemma rank_lt_trans (p q r : Z * Z * Z) :
  rank_lt p q -> rank_lt q r -> rank_lt p r.
Proof.
  destruct p as [[? ?] ?], q as [[? ?] ?], r as [[? ?] ?]. cbn. lia.
Qed.

Lemma float_ltb_trans (x y z : float) :
  not_nan x -> not_nan y -> not_nan z ->
  (x <? y)%float = true -> (y <? z)%float = true -> (x <? z)%float = true.
Proof.
  intros Hx Hy Hz H1 H2. apply ltb_rank; auto.
  apply ltb_rank in H1, H2; auto. eapply rank_lt_trans; eauto.
Qed.

Lemma grey_luminance_step (n : Z) :
  0 <= n <= 254 ->
  PrimFloat.ltb (calculate_luminance (n, n, n))
    (calculate_luminance (n + 1, n + 1, n + 1)) = true.
Proof.
  intros Hn.
  assert (H : forall k, 0 <= k <= 255 ->
              (k =? 255)
              || PrimFloat.ltb (calculate_luminance (k, k, k))
                   (calculate_luminance (k + 1, k + 1, k + 1)) = true)
    by (apply bytes_forall; vm_compute; reflexivity).
  specialize (H n ltac:(lia)).
  apply orb_prop in H as [H|H]; [apply Z.eqb_eq in H; lia | exact H].
Qed.

Lemma grey_valid (n : Z) : 0 <= n <= 255 -> valid_rgb (n, n, n).
Proof. cbv [valid_rgb]. auto. Qed.

(** X13. On greys the luminance grows strictly with the shared channel
    value: it is 0 for black, 1 for white, and a darker grey has a
    strictly smaller luminance than a lighter one. *)
Theorem grey_luminance_monotone :
  calculate_luminance (0, 0, 0) = 0%float
  /\ calculate_luminance (255, 255, 255) = 1%float
  /\ forall n m : Z,
       0 <= n -> n < m -> m <= 255 ->
       PrimFloat.ltb (calculate_luminance (n, n, n))
         (calculate_luminance (m, m, m)) = true.
Proof.
  split; [reflexivity|]. split; [reflexivity|].
  intros n m Hn Hnm Hm.
  replace m with (n + 1 + Z.of_nat (Z.to_nat (m - n - 1))) in * by lia.
  generalize dependent (Z.to_nat (m - n - 1)). intros d.
  induction d as [|d IH]; intros Hnm Hm.
  - rewrite Z.add_0_r. apply grey_luminance_step. lia.
  - eapply (float_ltb_trans _
              (calculate_luminance
                 (n + 1 + Z.of_nat d, n + 1 + Z.of_nat d, n + 1 + Z.of_nat d))).
    + apply calculate_luminance_not_nan, grey_valid. lia.
    + apply calculate_luminance_not_nan, grey_valid. lia.
    + apply calculate_luminance_not_nan, grey_valid. lia.
    + apply IH; lia.
    + replace (n + 1 + Z.of_nat (S d)) with (n + 1 + Z.of_nat d + 1) by lia.
      apply grey_luminance_step. lia.
Qed.

Lemma grey_luminance_monotone_witness :
  PrimFloat.ltb (calculate_luminance (10, 10, 10))
    (calculate_luminance (200, 200, 200)) = true.
Proof.
  apply (proj2 (proj2 grey_luminance_monotone)); lia.
Defined.

(** ** The name of the download *)

Lemma take_length (n : nat) (s : string) :
  (String.length (PyStr2.take n s) <= n)%nat.
Proof.
  unfold PyStr2.take. revert s.
  induction n as [|n IH]; intros [|c s]; cbn; try lia.
  specialize (IH s). lia.
Qed.




(** ** The template routes *)

Lemma find_by_id (db : list TemplateRow) (t : TemplateRow) :
  NoDup (map row_id db) -> In t db ->
  find (fun r => String.eqb (row_id r) (row_id t)) db = Some t.
Proof.
  induction db as [|r l IH]; intros Hnd Hin; [destruct Hin|].
  cbn in Hnd. apply NoDup_cons_iff in Hnd as [Hr Hnd]. cbn [find].
  destruct Hin as [<-|Hin]; [now rewrite String.eqb_refl|].
  destruct (String.eqb_spec (row_id r) (row_id t)) as [E|_].
  - exfalso. apply Hr. rewrite E. now apply in_map.
  - now apply IH.
Qed.

Section TemplateFacts.
Variable db : list TemplateRow.
Hypothesis ids_differ : NoDup (map row_id db).

Lemma get_listed_template (ty : option TemplateType) (t : Template) :
  In t (list_templates_in db ty) -> get_template_in db (id t) = Response t.
Proof.
  unfold list_templates_in, get_template_in. intros H.
  apply in_map_iff in H as (r & <- & Hr).
  assert (Hin : In r db)
    by (destruct ty; [now apply filter_In in Hr | exact Hr]).
  cbn [id to_template]. now rewrite (find_by_id db r ids_differ Hin).
Qed.

Lemma get_template_found (template_id : string) (t : Template) :
  get_template_in db template_id = Response t ->
  id t = template_id
  /\ In t (list_templates_in db None)
  /\ In t (list_templates_in db (Some (template_type t))).
Proof.
  unfold get_template_in, list_templates_in.
  destruct (find _ db) as [r|] eqn:Hf; [|discriminate].
  intros [= <-]. apply find_some in Hf as [Hin Hid].
  apply String.eqb_eq in Hid. split; [exact Hid|].
  split; apply in_map; [exact Hin|].
  apply filter_In. split; [exact Hin|].
  cbn. now destruct (row_template_type r).
Qed.

Lemma get_template_missing (template_id : string) :
  ~ In template_id (map id (list_templates_in db None)) ->
  get_template_in db template_id
  = HTTPException 404 ("Template " ++ template_id ++ " not found").
Proof.
  unfold get_template_in, list_templates_in. intros Hno.
  destruct (find _ db) as [r|] eqn:Hf; [|reflexivity].
  apply find_some in Hf as [Hin Hid]. apply String.eqb_eq in Hid.
  exfalso. apply Hno. rewrite map_map. cbn [id to_template].
  rewrite <- Hid. now apply in_map.
Qed.

End TemplateFacts.

Lemma templates_ids_differ : NoDup (map row_id TEMPLATES_DB).
Proof.
  cbn. repeat constructor; cbn; intuition discriminate.
Qed.

(** X15. The two template routes agree. Every template that
    [list_templates] returns, with or without a filter, is what
    [get_template] returns for its id; a template [get_template] returns
    has the id asked for and is listed, also under the filter of its own
    type; and an id that is not listed gets the 404 error naming it. *)
Theorem template_routes_agree :
  (forall (ty : option TemplateType) (t : Template),
      In t (list_templates ty) -> get_template (id t) = Response t)
  /\ (forall (template_id : string) (t : Template),
         get_template template_id = Response t ->
         id t = template_id
         /\ In t (list_templates None)
         /\ In t (list_templates (Some (template_type t))))
  /\ (forall template_id : string,
         ~ In template_id (map id (list_templates None)) ->
         get_template template_id
         = HTTPException 404 ("Template " ++ template_id ++ " not found")).
Proof.
  split; [|split].
  - intros ty t. apply get_listed_template, templates_ids_differ.
  - apply get_template_found.
  - apply get_template_missing.
Qed.

Lemma template_routes_agree_witness :
  exists t : Template,
    In t (list_templates (Some CAROUSEL))
    /\ get_template (id t) = Response t.
Proof.
  eexists. split; [left; reflexivity|].
  apply (proj1 template_routes_agree (Some CAROUSEL)). left. reflexivity.
Defined.

(** ** Colours in style attributes *)

Lemma take_rest (n : nat) (s : string) :
  exists rest, s = (PyStr2.take n s ++ rest)%string.
Proof.
  unfold PyStr2.take. revert s.
  induction n as [|n IH]; intros s.
  - exists s. now rewrite substring_0_0.
  - destruct s as [|c s]; [now exists EmptyString|].
    destruct (IH s) as [rest E]. exists rest. cbn. now rewrite <- E.
Qed.

Lemma hex_prefix_take (n : nat) (s : string) :
  hex_prefix n s = true ->
  String.length (PyStr2.take n s) = n
  /\ all_chars is_hex_digit (PyStr2.take n s) = true.
Proof.
  unfold PyStr2.take. revert s.
  induction n as [|n IH]; intros s H.
  - rewrite substring_0_0. now split.
  - destruct s as [|c s]; [discriminate|]. cbn in H.
    apply andb_prop in H as [Hc Hs]. destruct (IH s Hs) as [Hl Ha].
    cbn. rewrite Hc, Ha, Hl. now split.
Qed.

Lemma findall_hex_from_match (skip : nat) (s h : string) :
  In h (findall_hex_from skip s) ->
  exists pre post t,
    s = (pre ++ h ++ post)%string
    /\ h = String "#" t
    /\ six_hex_digits t = true.
Proof.
  revert skip. induction s as [|c s IH]; intros skip Hin; [destruct Hin|].
  assert (Hrec : forall k, In h (findall_hex_from k s) ->
             exists pre post t,
               String c s = (pre ++ h ++ post)%string
               /\ h = String "#" t /\ six_hex_digits t = true).
  { intros k Hk. destruct (IH k Hk) as (pre & post & t & E & Hh & Ht).
    exists (String c pre), post, t. cbn. now rewrite <- E. }
  cbn [findall_hex_from] in Hin. destruct skip as [|k]; [|now apply (Hrec k)].
  destruct (Ascii.eqb c "#" && hex_prefix 6 s) eqn:Hm; [|now apply (Hrec 0%nat)].
  destruct Hin as [<-|Hin]; [|now apply (Hrec 6%nat)].
  apply andb_prop in Hm as [Hc Hp]. apply Ascii.eqb_eq in Hc. subst c.
  destruct (hex_prefix_take 6 s Hp) as [Hl Ha].
  destruct (take_rest 6 s) as [rest E].
  exists EmptyString, rest, (PyStr2.take 6 s). cbn [append].
  split; [now rewrite <- E|]. split; [reflexivity|].
  unfold six_hex_digits. now rewrite Hl, Ha.
Qed.

(** X16. Every colour [_extract_colors_from_css] returns is a piece of
    one of the style values, is ['#'] followed by six hexadecimal digits,
    and is read by [hex_to_rgb] without error, to channels in [0,255].
    There are at most ten colours and none comes twice. *)
Theorem extract_colors_from_css_sound (order : SetOrder)
  (styles : list string) :
  NoDup (extract_colors_from_css styles)
  /\ (List.length (extract_colors_from_css styles) <= 10)%nat
  /\ forall h, In h (extract_colors_from_css styles) ->
       exists style pre post t c,
         In style styles
         /\ style = (pre ++ h ++ post)%string
         /\ h = String "#" t
         /\ six_hex_digits t = true
         /\ hex_to_rgb h = Ok c
         /\ valid_rgb c.
Proof.
  unfold extract_colors_from_css. cbv zeta.
  split; [apply firstn_NoDup, list_set_NoDup|].
  split; [rewrite length_firstn; apply Nat.le_min_l|].
  intros h Hh. apply firstn_incl in Hh.
  apply (proj1 (list_set_In _ _)) in Hh.
  apply in_flat_map in Hh as (style & Hstyle & Hh).
  destruct (findall_hex_from_match _ _ _ Hh) as (pre & post & t & E & Ht & H6).
  destruct (six_hex_digits_convert t H6) as (c & _ & Hc & Hv).
  exists style, pre, post, t, c. repeat split; auto.
  rewrite Ht, hex_to_rgb_hash. exact Hc.
Qed.

Lemma extract_colors_from_css_sound_witness :
  exists style pre post t c,
    In style ["color: #1a2B3c; border: 1px solid #fff"]
    /\ style = (pre ++ "#1a2B3c" ++ post)%string
    /\ "#1a2B3c" = String "#" t
    /\ six_hex_digits t = true
    /\ hex_to_rgb "#1a2B3c" = Ok c
    /\ valid_rgb c.
Proof.
  apply (proj2 (proj2 (extract_colors_from_css_sound first_seen
                         ["color: #1a2B3c; border: 1px solid #fff"]))).
  vm_compute. now left.
Defined.

(** ** The text of the page *)

Lemma take_single_blanks (n : nat) (s : string) (b : bool) :
  single_blanks_from b s = true ->
  single_blanks_from b (PyStr2.take n s) = true.
Proof.
  unfold PyStr2.take. revert s b.
  induction n as [|n IH]; intros s b H.
  - now rewrite substring_0_0.
  - destruct s as [|c s]; [reflexivity|]. cbn in *.
    destruct (PyStr2.isspace c).
    + apply andb_prop in H as [H1 H2]. rewrite H1. now apply IH.
    + now apply IH.
Qed.

Lemma list_string_app (l1 l2 : list ascii) :
  string_of_list_ascii (l1 ++ l2)%list
  = (string_of_list_ascii l1 ++ string_of_list_ascii l2)%string.
Proof. induction l1 as [|c l1 IH]; cbn; [reflexivity | now rewrite IH]. Qed.

Lemma letters_app (s t : string) :
  letters (s ++ t) = (letters s ++ letters t)%list.
Proof.
  unfold letters. induction s as [|c s IH]; cbn; [reflexivity|].
  destruct (PyStr2.isspace c); cbn; now rewrite IH.
Qed.

Lemma word_of_letters (word : list ascii) :
  word <> [] -> Forall (fun c => PyStr2.isspace c = false) word ->
  is_word (string_of_list_ascii (rev word))
  /\ letters (string_of_list_ascii (rev word)) = rev word.
Proof.
  intros Hne Hall.
  assert (Hl : letters (string_of_list_ascii (rev word)) = rev word).
  { unfold letters. rewrite list_ascii_of_string_of_list_ascii.
    apply forallb_filter_id, forallb_forall. intros c Hc.
    apply in_rev in Hc. rewrite Forall_forall in Hall.
    now rewrite (Hall c Hc). }
  split; [split|exact Hl].
  - intros E. apply Hne.
    apply (f_equal list_ascii_of_string) in E.
    rewrite list_ascii_of_string_of_list_ascii in E. cbn in E.
    destruct word as [|c w]; [reflexivity|].
    cbn in E. now apply app_eq_nil in E as [_ E].
  - now rewrite Hl, list_ascii_of_string_of_list_ascii.
Qed.

Lemma split_from_words (word : list ascii) (s : string) :
  Forall (fun c => PyStr2.isspace c = false) word ->
  Forall is_word (PyStr2.split_from word s)
  /\ List.concat (map letters (PyStr2.split_from word s)) = (rev word ++ letters s)%list.
Proof.
  revert word. induction s as [|c s IH]; intros word Hw; cbn [PyStr2.split_from].
  - destruct word as [|a w]; [split; [constructor | reflexivity]|].
    destruct (word_of_letters (a :: w)) as [Hword Hl]; [discriminate | exact Hw|].
    split; [constructor; [exact Hword | constructor]|].
    cbn [map List.concat]. rewrite Hl. unfold letters. cbn. now rewrite !app_nil_r.
  - unfold letters at 2. cbn [list_ascii_of_string filter].
    destruct (PyStr2.isspace c) eqn:Hc; cbn [negb].
    + destruct (IH [] (Forall_nil _)) as [Hf Hl]. fold (letters s).
      destruct word as [|a w]; [split; [exact Hf | exact Hl]|].
      destruct (word_of_letters (a :: w)) as [Hword Hlw];
        [discriminate | exact Hw|].
      split; [constructor; [exact Hword | exact Hf]|].
      cbn [map List.concat]. now rewrite Hlw, Hl.
    + destruct (IH (c :: word)) as [Hf Hl]; [now constructor|].
      fold (letters s). split; [exact Hf|].
      rewrite Hl. cbn [rev]. now rewrite <- app_assoc.
Qed.

Lemma word_then (w rest : string) (b : bool) :
  is_word w ->
  single_blanks_from b (w ++ rest) = single_blanks_from false rest.
Proof.
  intros [Hne Hl]. revert b.
  induction w as [|c w IH]; intros b; [congruence|].
  unfold letters in Hl. cbn in Hl.
  destruct (PyStr2.isspace c) eqn:Hc; cbn [negb] in Hl.
  - exfalso.
    pose proof (filter_length_le (fun c => negb (PyStr2.isspace c))
                  (list_ascii_of_string w)) as Hlen.
    rewrite Hl in Hlen. cbn in Hlen. lia.
  - cbn. rewrite Hc. injection Hl as Hl.
    destruct w as [|c' w']; [reflexivity|].
    apply IH; [discriminate | exact Hl].
Qed.

Lemma string_app_nil (s : string) : (s ++ EmptyString)%string = s.
Proof. induction s as [|c s IH]; cbn; [reflexivity | now rewrite IH]. Qed.

Lemma join_single_blanks (words : list string) (b : bool) :
  Forall is_word words -> words <> [] ->
  single_blanks_from b (PyStr2.join " " words) = true.
Proof.
  intros Hall. revert b.
  induction Hall as [|w ws Hw Hws IH]; intros b Hne; [congruence|].
  destruct ws as [|w' ws'].
  - cbn [PyStr2.join]. rewrite <- (string_app_nil w).
    now rewrite word_then.
  - change (PyStr2.join " " (w :: w' :: ws'))
      with (w ++ " " ++ PyStr2.join " " (w' :: ws'))%string.
    rewrite word_then by exact Hw. cbn. apply IH. discriminate.
Qed.

Lemma join_letters (words : list string) :
  letters (PyStr2.join " " words) = List.concat (map letters words).
Proof.
  induction words as [|w ws IH]; [reflexivity|].
  destruct ws as [|w' ws'].
  - cbn [PyStr2.join map List.concat]. now rewrite app_nil_r.
  - change (PyStr2.join " " (w :: w' :: ws'))
      with (w ++ " " ++ PyStr2.join " " (w' :: ws'))%string.
    rewrite !letters_app, IH. reflexivity.
Qed.

(** X17. The text [_extract_main_text] returns holds at most 5000
    characters and no whitespace but single blanks between words (no
    blank in front, no two in a row, no tab or line break); its
    characters other than blanks are the first of those of the text
    given, in the same order. *)
Theorem clean_main_text_shape (text : string) :
  (String.length (clean_main_text text) <= 5000)%nat
  /\ single_blanks (clean_main_text text) = true
  /\ exists rest,
       letters text = (letters (clean_main_text text) ++ rest)%list.
Proof.
  unfold clean_main_text. cbv zeta.
  destruct (split_from_words [] text (Forall_nil _)) as [Hwords Hl].
  fold (PyStr2.split text) in Hwords, Hl. cbn [rev app] in Hl.
  split; [apply take_length|]. split.
  - apply take_single_blanks.
    destruct (PyStr2.split text) as [|w ws] eqn:E; [reflexivity|].
    apply join_single_blanks; [exact Hwords | discriminate].
  - destruct (take_rest 5000 (PyStr2.join " " (PyStr2.split text))) as [r E].
    exists (letters r). rewrite <- letters_app, <- E, join_letters. now symmetry.
Qed.

(** ** The exported carousel *)

(** X18. The exported carousel holds the cover, numbered 1 and carrying
    the title, and then one slide for each slide given, in the order
    given, with its own number, title and content; [totalSlides] is the
    number of entries of [slides], one more than the slides given. *)
Theorem export_linkedin_carousel_slides (carousel_title : string)
  (slides : list CarouselSlide) (cover_text : option string)
  (brand_colors : option ColorPalette) :
  let out :=
    export_linkedin_carousel carousel_title slides cover_text brand_colors in
  figma_get "totalSlides" out = Some (FInt (1 + Z.of_nat (List.length slides)))
  /\ exists cover rest,
       figma_get "slides" out = Some (FList (cover :: rest))
       /\ figma_get "type" cover = Some (FStr "COVER")
       /\ figma_get "slideNumber" cover = Some (FInt 1)
       /\ figma_get "title" cover = Some (FStr carousel_title)
       /\ List.length rest = List.length slides
       /\ forall k slide,
            nth_error slides k = Some slide ->
            exists entry,
              nth_error rest k = Some entry
              /\ figma_get "type" entry = Some (FStr "CONTENT")
              /\ figma_get "slideNumber" entry = Some (FInt (slide_number slide))
              /\ figma_get "title" entry = Some (FStr (title slide))
              /\ figma_get "content" entry = Some (FStr (content slide))
              /\ figma_get "visualHint" entry
                 = Some (figma_opt_str (visual_hint slide)).
Proof.
  cbv zeta. unfold export_linkedin_carousel. cbv zeta.
  split.
  - cbn [figma_get find fst snd String.eqb Ascii.eqb Bool.eqb List.length].
    rewrite length_map. do 2 f_equal. lia.
  - eexists. eexists. split; [reflexivity|].
    split; [reflexivity|]. split; [reflexivity|]. split; [reflexivity|].
    split; [apply length_map|].
    intros k slide Hk. eexists. split.
    + rewrite nth_error_map, Hk. reflexivity.
    + repeat split.
Qed.

Lemma export_linkedin_carousel_slides_witness :
  exists entry,
    nth_error
      match
        figma_get "slides"
          (export_linkedin_carousel "T"
             [{| slide_number := 2; title := "a"; content := "b";
                 visual_hint := None |}] None None)
      with
      | Some (FList (_ :: rest)) => rest
      | _ => []
      end 0 = Some entry
    /\ figma_get "slideNumber" entry = Some (FInt 2).
Proof.
  destruct (export_linkedin_carousel_slides "T"
              [{| slide_number := 2; title := "a"; content := "b";
                  visual_hint := None |}] None None)
    as (_ & cover & rest & Hs & _ & _ & _ & _ & Hk).
  destruct (Hk 0%nat _ eq_refl) as (entry & He & _ & Hn & _).
  rewrite Hs. exists entry. split; [exact He | exact Hn].
Defined.

(** ** The range of [hex_to_rgb] *)

Lemma slice2_short (i : nat) (s : string) :
  (String.length (PyStr.slice2 i s) <= 2)%nat.
Proof.
  unfold PyStr.slice2. revert s.
  induction i as [|i IH]; intros s.
  - destruct s as [|a [|b s]]; cbn; try lia. rewrite substring_0_0. cbn. lia.
  - destruct s as [|a s]; cbn; [lia | apply IH].
Qed.

Lemma int16_short (t : string) (v : Z) :
  (String.length t <= 2)%nat -> PyStr.int16 t = Ok v -> -15 <= v <= 255.
Proof.
  assert (H1 : forall a,
             match PyStr.int16 (String a EmptyString) with
             | Ok w => (-15 <=? w) && (w <=? 255)
             | Raise _ => true
             end = true)
    by (apply ascii_forall; vm_compute; reflexivity).
  assert (H2 : forall a b,
             match PyStr.int16 (String a (String b EmptyString)) with
             | Ok w => (-15 <=? w) && (w <=? 255)
             | Raise _ => true
             end = true)
    by (apply ascii_forall2; vm_compute; reflexivity).
  intros Hlen Hv. destruct t as [|a [|b [|c t]]].
  - discriminate.
  - specialize (H1 a). rewrite Hv in H1. lia.
  - specialize (H2 a b). rewrite Hv in H2. lia.
  - cbn in Hlen. lia.
Qed.

(** X19. Whatever the string, a triple [hex_to_rgb] returns has every
    channel between -15 and 255: a channel is never above 255, and it is
    negative only when its two characters are a minus sign and a digit. *)
Theorem hex_to_rgb_range (s : string) (r g b : Z) :
  hex_to_rgb s = Ok (r, g, b) ->
  -15 <= r <= 255 /\ -15 <= g <= 255 /\ -15 <= b <= 255.
Proof.
  unfold hex_to_rgb.
  destruct (PyStr.int16 (PyStr.slice2 0 _)) as [r'|] eqn:Hr; [|discriminate].
  destruct (PyStr.int16 (PyStr.slice2 2 _)) as [g'|] eqn:Hg; [|discriminate].
  destruct (PyStr.int16 (PyStr.slice2 4 _)) as [b'|] eqn:Hb; [|discriminate].
  cbn [bind]. intros [= <- <- <-].
  repeat split;
    try (apply (int16_short _ _ (slice2_short _ _) Hr));
    try (apply (int16_short _ _ (slice2_short _ _) Hg));
    try (apply (int16_short _ _ (slice2_short _ _) Hb)).
Qed.

Lemma hex_to_rgb_range_witness :
  -15 <= -15 <= 255 /\ -15 <= 10 <= 255 /\ -15 <= 255 <= 255.
Proof. apply (hex_to_rgb_range "-f0aFF"). reflexivity. Defined.

(** ** Saturation and neutrality *)

(** X20. Neutrality is a threshold on the key the vibrant samples are
    sorted by: a sample is neutral exactly when its saturation is below
    30. The saturation is never negative, is 0 exactly for the greys, is
    at most 255 for channels in [0,255], and does not depend on the order
    of the channels; so neither does neutrality. *)
Theorem saturation_facts (r g b : Z) :
  is_neutral (r, g, b) = (saturation (r, g, b) <? 30)
  /\ 0 <= saturation (r, g, b)
  /\ (saturation (r, g, b) = 0 <-> r = g /\ g = b)
  /\ (valid_rgb (r, g, b) -> saturation (r, g, b) <= 255)
  /\ saturation (g, r, b) = saturation (r, g, b)
  /\ saturation (r, b, g) = saturation (r, g, b)
  /\ is_neutral (g, r, b) = is_neutral (r, g, b)
  /\ is_neutral (r, b, g) = is_neutral (r, g, b).
Proof.
  assert (S1 : saturation (g, r, b) = saturation (r, g, b))
    by (unfold saturation, max3, min3; lia).
  assert (S2 : saturation (r, b, g) = saturation (r, g, b))
    by (unfold saturation, max3, min3; lia).
  assert (N : forall c, is_neutral c = (saturation c <? 30))
    by (intros [[? ?] ?]; reflexivity).
  split; [apply N|].
  split; [unfold saturation, max3, min3; lia|].
  split; [unfold saturation, max3, min3; lia|].
  split; [unfold valid_rgb, saturation, max3, min3; lia|].
  split; [exact S1|]. split; [exact S2|].
  rewrite !N, S1, S2. split; reflexivity.
Qed.

Lemma saturation_facts_witness : saturation (10, 200, 30) <= 255.
Proof.
  apply (saturation_facts 10 200 30). cbv [valid_rgb]. lia.
Defined.
